(** * Unit-commitment and dispatch model of the OR-Tools notebook

    A shallow embedding of the notebook "Optimizing the power plant
    dispatch with OR-Tools": the cells that register variables, the
    objective and the constraints with the global [solver] object, and the
    cells that read the solution back.  Numbers are the notebook's Python
    numbers with their exact arithmetic, written as rationals ([Q]): the
    notebook's parameters are Python ints, and the rounding of float
    arithmetic is not modelled.  Where a number is handed to the solver it is
    converted to a C double, which fails outside the range of a double.  The
    external MIP solver is not part of the notebook and appears only through
    the contract [solver_contract]. *)

From Stdlib Require Import QArith Qabs Qround Lqa.

From stdpp Require Import gmap strings list pretty.

Open Scope Q_scope.

(** * Definitions *)

(** ** The notebook's objects *)

(** [KeyError], [TypeError], [AttributeError] and [OverflowError] are what
    the notebook's dictionary reads, arithmetic and method calls can raise;
    [InvalidParameterError] and [UnsolvedModelError] are the error names of
    the specification, raised by no cell. *)
Inductive Exception : Type :=
  | KeyError (key : Z)
  | TypeError
  | AttributeError
  | OverflowError
  | InvalidParameterError
  | UnsolvedModelError.

Inductive Outcome (A : Type) : Type :=
  | Returned (a : A)
  | Raised (e : Exception).

Arguments Returned {A} a.

Arguments Raised {A} e.

#[global] Instance Outcome_ret : MRet Outcome := fun A a => Returned a.

#[global] Instance Outcome_bind : MBind Outcome := fun A B k o =>
  match o with
  | Returned a => k a
  | Raised e => Raised e
  end.

(** A variable handle is the index of the variable inside the solver. *)
Definition VarIndex : Type := nat.

Bind Scope nat_scope with VarIndex.

Record MPVariable : Type := mkVar {
  var_lb : Q;
  var_ub : Q;
  var_integer : bool;
  var_name : string
}.

(** Linear expressions, built by the Python operators the cells use:
    [e * c] and [c * e], [a + b], [a - b] and [solver.Sum(list)]. *)
#[warnings="-register-all"]
Inductive LinearExpr : Type :=
  | VarExpr (v : VarIndex)
  | ProductCst (e : LinearExpr) (c : Q)
  | SumExpr (a b : LinearExpr)
  | DiffExpr (a b : LinearExpr)
  | SumArray (es : list LinearExpr).

(** [l <= r] and [l == r] on linear expressions. *)
Inductive LinearConstraint : Type :=
  | LeC (l r : LinearExpr)
  | EqC (l r : LinearExpr).

Inductive Sense : Type := Maximization | Minimization.

Record Solver : Type := mkSolver {
  variables : list MPVariable;
  constraints : list LinearConstraint;
  objective : option (Sense * LinearExpr)
}.

(** [pywraplp.Solver.CreateSolver("SCIP")]: an empty model. *)
Definition CreateSolver : Solver :=
  {| variables := []; constraints := []; objective := None |}.

(** A cell is a computation on the global solver object.  The solver state
    is returned also when an exception is raised: what was registered before
    the exception stays registered. *)
Definition Cell (A : Type) : Type := Solver -> Outcome A * Solver.

#[global] Instance Cell_ret : MRet Cell := fun A a s => (Returned a, s).

#[global] Instance Cell_bind : MBind Cell := fun A B k m s =>
  match m s with
  | (Returned a, s') => k a s'
  | (Raised e, s') => (Raised e, s')
  end.

(** A dictionary read or an arithmetic operation: it raises or returns
    without touching the solver. *)
Definition lift {A} (o : Outcome A) : Cell A := fun s => (o, s).

(** [for x in xs: acc = body x acc]. *)
Fixpoint for_each {A St} (xs : list A) (body : A -> St -> Cell St) (acc : St)
  : Cell St :=
  match xs with
  | [] => mret acc
  | x :: xs' => acc' ← body x acc; for_each xs' body acc'
  end.

(** The solver takes bounds and coefficients as C doubles.  A Python number
    converts when it rounds to a finite double, that is when its absolute
    value is below [2^1024 - 2^970], half way between the largest double and
    [2^1024]. *)
Definition DOUBLE_OVERFLOW : Q := inject_Z (2 ^ 1024 - 2 ^ 970).

Definition fits_double (x : Q) : bool :=
  negb (Qle_bool DOUBLE_OVERFLOW (Qabs x)).

Arguments fits_double : simpl never.

(** Whether every coefficient written in an expression converts. *)
Fixpoint convertible (e : LinearExpr) : bool :=
  match e with
  | VarExpr _ => true
  | ProductCst e c => fits_double c && convertible e
  | SumExpr x y | DiffExpr x y => convertible x && convertible y
  | SumArray es => forallb convertible es
  end.

Definition convertible_constraint (c : LinearConstraint) : bool :=
  match c with
  | LeC l r | EqC l r => convertible l && convertible r
  end.

(** [solver.IntVar(lb, ub, name)] and [solver.NumVar(lb, ub, name)]: a bound
    that does not convert to a double raises [TypeError], and no variable is
    registered. *)
Definition MakeVar (lb ub : Q) (integer : bool) (name : string) : Cell VarIndex :=
  fun s =>
    if fits_double lb && fits_double ub then
      (Returned (length (variables s)),
       {| variables := variables s ++ [mkVar lb ub integer name];
          constraints := constraints s;
          objective := objective s |})
    else (Raised TypeError, s).

Definition IntVar (lb ub : Q) (name : string) : Cell VarIndex :=
  MakeVar lb ub true name.

Definition NumVar (lb ub : Q) (name : string) : Cell VarIndex :=
  MakeVar lb ub false name.

(** [solver.Add(c)]: the coefficients of the constraint are collected as
    floating-point numbers before the constraint is created; a coefficient
    that does not convert raises [OverflowError], and nothing is added. *)
Definition Add (c : LinearConstraint) : Cell unit :=
  fun s =>
    if convertible_constraint c then
      (Returned tt,
       {| variables := variables s;
          constraints := constraints s ++ [c];
          objective := objective s |})
    else (Raised OverflowError, s).

(** [solver.Maximize(e)]: the objective is cleared and set to maximisation,
    then the coefficients of [e] are collected as floating-point numbers and
    written; a coefficient that does not convert raises [OverflowError] and
    leaves the cleared objective. *)
Definition Maximize (e : LinearExpr) : Cell unit :=
  fun s =>
    if convertible e then
      (Returned tt,
       {| variables := variables s;
          constraints := constraints s;
          objective := Some (Maximization, e) |})
    else
      (Raised OverflowError,
       {| variables := variables s;
          constraints := constraints s;
          objective := Some (Maximization, SumArray []) |}).

Record Inputs : Type := mkInputs {
  times : list Z;
  PROD_MIN : Q;
  PROD_MAX : Q;
  PROD_COSTS : gmap Z Q;
  START_UP_COSTS : Q;
  PRICE : gmap Z Q
}.

(** A dictionary of variables; [None] is the Python [None] that
    [dict.fromkeys] stores. *)
Abbreviation VarDict := (gmap Z (option VarIndex)).

Definition fromkeys (keys : list Z) : VarDict :=
  foldl (fun d k => <[k := None]> d) ∅ keys.

(** [d[k]] on a parameter dictionary. *)
Definition getitem (d : gmap Z Q) (k : Z) : Outcome Q :=
  match d !! k with
  | Some x => Returned x
  | None => Raised (KeyError k)
  end.

(** [d[k]] on a variable dictionary, used as an operand. *)
Definition getvar (d : VarDict) (k : Z) : Outcome VarIndex :=
  match d !! k with
  | Some (Some v) => Returned v
  | Some None => Raised TypeError
  | None => Raised (KeyError k)
  end.

Record Handles : Type := mkHandles {
  production : VarDict;
  operating : VarDict;
  start_up : VarDict;
  shut_down : VarDict
}.

(** A list comprehension whose element expression may raise. *)
Fixpoint comprehension {A B} (f : A -> Outcome B) (xs : list A)
  : Outcome (list B) :=
  match xs with
  | [] => mret []
  | x :: xs' => y ← f x; ys ← comprehension f xs'; mret (y :: ys)
  end.

(** ** The cells that build the model *)

Section Notebook.

Variable inp : Inputs.

Let T := times inp.

(** Body of the loop of cell "Variables". *)
Definition register_period (t : Z) (h : Handles) : Cell Handles :=
  op ← IntVar 0 1 ("operating_" +:+ pretty t);
  su ← IntVar 0 1 ("start_up_" +:+ pretty t);
  sd ← IntVar 0 1 ("shut_down_" +:+ pretty t);
  pr ← NumVar 0 (PROD_MAX inp) ("production_" +:+ pretty t);
  mret {| production := <[t := Some pr]> (production h);
          operating := <[t := Some op]> (operating h);
          start_up := <[t := Some su]> (start_up h);
          shut_down := <[t := Some sd]> (shut_down h) |}.

(** Cell "Variables". *)
Definition make_variables : Cell Handles :=
  for_each T register_period
    {| production := fromkeys T; operating := fromkeys T;
       start_up := fromkeys T; shut_down := fromkeys T |}.

(** One element of the list comprehension [obj_expr]. *)
Definition obj_term (h : Handles) (t : Z) : Outcome LinearExpr :=
  price ← getitem (PRICE inp) t;
  cost ← getitem (PROD_COSTS inp) t;
  pr ← getvar (production h) t;
  su ← getvar (start_up h) t;
  mret (DiffExpr (ProductCst (VarExpr pr) (price - cost))
                 (ProductCst (VarExpr su) (START_UP_COSTS inp))).

(** Cell "Objective function". *)
Definition set_objective (h : Handles) : Cell unit :=
  obj_expr ← lift (comprehension (obj_term h) T);
  Maximize (SumArray obj_expr).

(** The two constraints of one pass of the loop of cell "Production
    limits". *)
Definition min_limit (h : Handles) (t : Z) : Outcome LinearConstraint :=
  op ← getvar (operating h) t;
  pr ← getvar (production h) t;
  mret (LeC (ProductCst (VarExpr op) (PROD_MIN inp)) (VarExpr pr)).

Definition max_limit (h : Handles) (t : Z) : Outcome LinearConstraint :=
  pr ← getvar (production h) t;
  op ← getvar (operating h) t;
  mret (LeC (VarExpr pr) (ProductCst (VarExpr op) (PROD_MAX inp))).

Definition add_limits (h : Handles) (t : Z) (_ : unit) : Cell unit :=
  c1 ← lift (min_limit h t); Add c1;;
  c2 ← lift (max_limit h t); Add c2.

(** Cell "Production limits". *)
Definition add_production_limits (h : Handles) : Cell unit :=
  for_each T (add_limits h) tt.

(** The constraint of one pass of the loop over [times[1:]], and the
    constraint of the first period. *)
Definition transition (h : Handles) (t : Z) : Outcome LinearConstraint :=
  op ← getvar (operating h) t;
  prev ← getvar (operating h) (t - 1);
  su ← getvar (start_up h) t;
  sd ← getvar (shut_down h) t;
  mret (EqC (VarExpr op)
            (DiffExpr (SumExpr (VarExpr prev) (VarExpr su)) (VarExpr sd))).

Definition first_period (h : Handles) : Outcome LinearConstraint :=
  op ← getvar (operating h) 1;
  su ← getvar (start_up h) 1;
  mret (EqC (VarExpr op) (VarExpr su)).

Definition add_transition (h : Handles) (t : Z) (_ : unit) : Cell unit :=
  c ← lift (transition h t); Add c.

(** Cell "Unit-commitment logic": the loop over [times[1:]], then the
    constraint of the first period, written with the literal key 1. *)
Definition add_commitment_logic (h : Handles) : Cell unit :=
  for_each (tail T) (add_transition h) tt;;
  c ← lift (first_period h);
  Add c.

(** The model-building cells in notebook order, on the solver they are
    given. *)
Definition build_cells : Cell Handles :=
  h ← make_variables;
  set_objective h;;
  add_production_limits h;;
  add_commitment_logic h;;
  mret h.

(** The notebook from its first cell, the counterpart of the
    specification's [buildModel]: a new solver, then the model. *)
Definition buildModel : Outcome Handles * Solver :=
  build_cells CreateSolver.

End Notebook.

(** ** The cells that solve and report *)

Definition Assignment : Type := VarIndex -> Q.

Inductive ResultStatus : Type :=
  | OPTIMAL | FEASIBLE | INFEASIBLE | UNBOUNDED | ABNORMAL | NOT_SOLVED.

(** What the solver object holds after [solver.Solve()]: the returned
    status, [solver.Objective().Value()] and the [solution_value()] of every
    variable. *)
Record Solved : Type := mkSolved {
  status : ResultStatus;
  objective_value : Q;
  values : Assignment
}.

(** [d[t].solution_value()] when the solver holds the values [a]. *)
Definition read_value (a : Assignment) (d : VarDict) (t : Z) : Outcome Q :=
  match d !! t with
  | Some (Some x) => Returned (a x)
  | Some None => Raised AttributeError
  | None => Raised (KeyError t)
  end.

(** What the reporting cells print. *)
Record Printed : Type := mkPrinted {
  printed_objective : option Q;
  printed_production : list Q;
  printed_operating : list Q;
  printed_start_up : list Q;
  printed_shut_down : list Q
}.

(** The cells after [status = solver.Solve()], the notebook's counterpart of
    the specification's [interpret]: the objective value is printed under
    [if status == pywraplp.Solver.OPTIMAL], the four loops over [times] print
    [solution_value()] without looking at the status. *)
Definition report (inp : Inputs) (h : Handles) (r : Solved) : Outcome Printed :=
  let obj := match status r with
             | OPTIMAL => Some (objective_value r)
             | _ => None
             end in
  pr ← comprehension (read_value (values r) (production h)) (times inp);
  op ← comprehension (read_value (values r) (operating h)) (times inp);
  su ← comprehension (read_value (values r) (start_up h)) (times inp);
  sd ← comprehension (read_value (values r) (shut_down h)) (times inp);
  mret {| printed_objective := obj; printed_production := pr;
          printed_operating := op; printed_start_up := su;
          printed_shut_down := sd |}.

(** ** Meaning of a model *)

Fixpoint eval (a : Assignment) (e : LinearExpr) : Q :=
  match e with
  | VarExpr v => a v
  | ProductCst e c => eval a e * c
  | SumExpr x y => eval a x + eval a y
  | DiffExpr x y => eval a x - eval a y
  | SumArray es => fold_right (fun e acc => eval a e + acc) 0 es
  end.

(** The coefficient of variable [v] in an expression. *)
Fixpoint coeff (v : VarIndex) (e : LinearExpr) : Q :=
  match e with
  | VarExpr w => if Nat.eqb v w then 1 else 0
  | ProductCst e c => coeff v e * c
  | SumExpr x y => coeff v x + coeff v y
  | DiffExpr x y => coeff v x - coeff v y
  | SumArray es => fold_right (fun e acc => coeff v e + acc) 0 es
  end.

(** Whether variable [v] is written in an expression. *)
Fixpoint mentions (v : VarIndex) (e : LinearExpr) : bool :=
  match e with
  | VarExpr w => Nat.eqb v w
  | ProductCst e _ => mentions v e
  | SumExpr x y | DiffExpr x y => mentions v x || mentions v y
  | SumArray es => existsb (mentions v) es
  end.

Definition constraint_mentions (v : VarIndex) (c : LinearConstraint) : bool :=
  match c with
  | LeC l r | EqC l r => mentions v l || mentions v r
  end.

Definition holds (a : Assignment) (c : LinearConstraint) : Prop :=
  match c with
  | LeC l r => eval a l <= eval a r
  | EqC l r => eval a l == eval a r
  end.

Definition holdsb (a : Assignment) (c : LinearConstraint) : bool :=
  match c with
  | LeC l r => Qle_bool (eval a l) (eval a r)
  | EqC l r => Qeq_bool (eval a l) (eval a r)
  end.

Definition integral (x : Q) : Prop := exists z : Z, x == inject_Z z.

Definition integralb (x : Q) : bool :=
  Qeq_bool x (inject_Z (Qfloor x)).

Definition in_domain (x : Q) (d : MPVariable) : Prop :=
  var_lb d <= x /\ x <= var_ub d /\ (var_integer d = true -> integral x).

Definition in_domainb (x : Q) (d : MPVariable) : bool :=
  Qle_bool (var_lb d) x && Qle_bool x (var_ub d)
  && (negb (var_integer d) || integralb x).

(** An assignment is feasible when every variable lies in its domain and
    every constraint holds. *)
Definition feasible (s : Solver) (a : Assignment) : Prop :=
  (forall v d, variables s !! v = Some d -> in_domain (a v) d)
  /\ (forall c, c ∈ constraints s -> holds a c).

Definition feasibleb (s : Solver) (a : Assignment) : bool :=
  forallb (fun vd => in_domainb (a (fst vd)) (snd vd))
          (imap (fun v d => (v, d)) (variables s))
  && forallb (holdsb a) (constraints s).

Definition objective_expr (s : Solver) : LinearExpr :=
  match objective s with
  | Some (_, e) => e
  | None => SumArray []
  end.

Definition objective_at (s : Solver) (a : Assignment) : Q :=
  eval a (objective_expr s).

(** Optimal for a maximisation objective. *)
Definition optimal (s : Solver) (a : Assignment) : Prop :=
  feasible s a /\ forall a', feasible s a' -> objective_at s a' <= objective_at s a.

(** The contract of the external MIP solver behind [solver.Solve()], a
    third-party library: a correct solver reports [OPTIMAL] only with an
    optimal assignment, [FEASIBLE] only with a feasible one, [INFEASIBLE] only
    for a model without feasible assignment and [UNBOUNDED] only for a model
    whose objective has no upper bound. *)
Definition solver_contract (s : Solver) (r : Solved) : Prop :=
  match status r with
  | OPTIMAL =>
      optimal s (values r) /\ objective_value r == objective_at s (values r)
  | FEASIBLE =>
      feasible s (values r) /\ objective_value r == objective_at s (values r)
  | INFEASIBLE => forall a, ~ feasible s a
  | UNBOUNDED => forall bound, exists a, feasible s a /\ bound < objective_at s a
  | ABNORMAL | NOT_SOLVED => True
  end.

Definition has_solution (r : Solved) : Prop :=
  status r = OPTIMAL \/ status r = FEASIBLE.

(** The assignment that gives every variable the value 0. *)
Definition all_zero : Assignment := fun _ => 0.

(** [a] with the value of variable [x] replaced by [b]. *)
Definition override (a : Assignment) (x : VarIndex) (b : Q) : Assignment :=
  fun y => if Nat.eqb y x then b else a y.

(** ** The specification's vocabulary *)

(** The horizon [(1, ..., n)] and the time index at position [k]. *)
Definition horizon (n : nat) : list Z := seqZ 1 (Z.of_nat n).

Definition period (k : nat) : Z := 1 + Z.of_nat k.

(** Every index of the horizon has a price and a cost. *)
Definition covered (inp : Inputs) : Prop :=
  forall t, t ∈ times inp ->
    is_Some (PRICE inp !! t) /\ is_Some (PROD_COSTS inp !! t).

Definition price_at (inp : Inputs) (t : Z) : Q := default 0 (PRICE inp !! t).

Definition cost_at (inp : Inputs) (t : Z) : Q := default 0 (PROD_COSTS inp !! t).

(** Every number a build hands to the solver converts to a double: the two
    output limits, the start-up cost and the margin of every index of the
    horizon. *)
Definition representable (inp : Inputs) : Prop :=
  forall t, t ∈ times inp ->
    fits_double (PROD_MAX inp) = true
    /\ fits_double (PROD_MIN inp) = true
    /\ fits_double (START_UP_COSTS inp) = true
    /\ fits_double (price_at inp t - cost_at inp t) = true.

Definition representableb (inp : Inputs) : bool :=
  forallb (fun t => fits_double (PROD_MAX inp) && fits_double (PROD_MIN inp)
                    && fits_double (START_UP_COSTS inp)
                    && fits_double (price_at inp t - cost_at inp t))
          (times inp).

(** Valid inputs as the specification describes them: a horizon
    [(1, ..., n)] with [n >= 1], [0 <= minOutput < maxOutput], a
    non-negative start-up cost, and a non-negative cost and a price for every
    index of the horizon. *)
Record valid_input (inp : Inputs) : Prop := mkValid {
  valid_horizon : times inp = horizon (length (times inp));
  valid_nonempty : (0 < length (times inp))%nat;
  valid_min : 0 <= PROD_MIN inp;
  valid_max : PROD_MIN inp < PROD_MAX inp;
  valid_start_up : 0 <= START_UP_COSTS inp;
  valid_costs : forall t, t ∈ times inp ->
                  exists c, PROD_COSTS inp !! t = Some c /\ 0 <= c;
  valid_prices : forall t, t ∈ times inp -> is_Some (PRICE inp !! t)
}.

Definition binary (x : Q) : Prop := x == 0 \/ x == 1.

(** The same read as a total function (0 where the read raises), for use in
    formulas. *)
Definition solution_value (a : Assignment) (d : VarDict) (t : Z) : Q :=
  match read_value a d t with
  | Returned x => x
  | Raised _ => 0
  end.

(** Per-period values, named as in the notebook's formulas: production
    [p_t], in operation [u_t], start-up [v_t], shut-down [w_t]. *)
Record Schedule : Type := mkSchedule {
  p_t : Z -> Q;
  u_t : Z -> Q;
  v_t : Z -> Q;
  w_t : Z -> Q
}.

Definition schedule (a : Assignment) (h : Handles) : Schedule :=
  {| p_t := solution_value a (production h);
     u_t := solution_value a (operating h);
     v_t := solution_value a (start_up h);
     w_t := solution_value a (shut_down h) |}.

(** The mathematical programme of the notebook's text, over schedules:
    domains, production limits, and the commitment logic with its
    first-period boundary. *)
Definition unit_commitment (inp : Inputs) (σ : Schedule) : Prop :=
  forall t, t ∈ times inp ->
    binary (u_t σ t) /\ binary (v_t σ t) /\ binary (w_t σ t)
    /\ 0 <= p_t σ t /\ p_t σ t <= PROD_MAX inp
    /\ u_t σ t * PROD_MIN inp <= p_t σ t
    /\ p_t σ t <= u_t σ t * PROD_MAX inp
    /\ (t <> 1%Z -> u_t σ t == u_t σ (t - 1) + v_t σ t - w_t σ t)
    /\ (t = 1%Z -> u_t σ t == v_t σ t).

(** Total profit of a schedule: the objective as the text states it. *)
Definition profit (inp : Inputs) (σ : Schedule) : Q :=
  fold_right
    (fun t acc =>
       (price_at inp t - cost_at inp t) * p_t σ t
       - START_UP_COSTS inp * v_t σ t + acc)
    0 (times inp).

(** ** Closed form of the built model *)

(** The solver after registering the variables [vs], and after adding the
    constraints [cs]. *)
Definition add_vars (vs : list MPVariable) (s : Solver) : Solver :=
  {| variables := variables s ++ vs;
     constraints := constraints s;
     objective := objective s |}.

Definition add_constraints (cs : list LinearConstraint) (s : Solver) : Solver :=
  {| variables := variables s;
     constraints := constraints s ++ cs;
     objective := objective s |}.

(** The four variables registered for period [t], in creation order. *)
Definition period_vars (inp : Inputs) (t : Z) : list MPVariable :=
  [ mkVar 0 1 true ("operating_" +:+ pretty t);
    mkVar 0 1 true ("start_up_" +:+ pretty t);
    mkVar 0 1 true ("shut_down_" +:+ pretty t);
    mkVar 0 (PROD_MAX inp) false ("production_" +:+ pretty t) ].

(** Handles of the period at position [k] when [base] variables existed
    before the cell ran. *)
Definition op_ix (base k : nat) : VarIndex := (base + 4 * k)%nat.

Definition su_ix (base k : nat) : VarIndex := (base + 4 * k + 1)%nat.

Definition sd_ix (base k : nat) : VarIndex := (base + 4 * k + 2)%nat.

Definition pr_ix (base k : nat) : VarIndex := (base + 4 * k + 3)%nat.

(** The dictionaries after the loop of cell "Variables" ran over [T] on a
    solver that held [base] variables. *)
Fixpoint assign_handles (base : nat) (T : list Z) (h : Handles) : Handles :=
  match T with
  | [] => h
  | t :: T' =>
      assign_handles (base + 4) T'
        {| production := <[t := Some (base + 3)%nat]> (production h);
           operating := <[t := Some base]> (operating h);
           start_up := <[t := Some (base + 1)%nat]> (start_up h);
           shut_down := <[t := Some (base + 2)%nat]> (shut_down h) |}
  end.

Section ClosedForm.

Variable inp : Inputs.

Variable base : nat.

(** The expressions and constraints written for the period at position
    [k]. *)
Definition objective_term (k : nat) : LinearExpr :=
  DiffExpr
    (ProductCst (VarExpr (pr_ix base k))
                (price_at inp (period k) - cost_at inp (period k)))
    (ProductCst (VarExpr (su_ix base k)) (START_UP_COSTS inp)).

Definition min_constraint (k : nat) : LinearConstraint :=
  LeC (ProductCst (VarExpr (op_ix base k)) (PROD_MIN inp))
      (VarExpr (pr_ix base k)).

Definition max_constraint (k : nat) : LinearConstraint :=
  LeC (VarExpr (pr_ix base k))
      (ProductCst (VarExpr (op_ix base k)) (PROD_MAX inp)).

(** The constraint that links position [k + 1] to position [k]. *)
Definition transition_constraint (k : nat) : LinearConstraint :=
  EqC (VarExpr (op_ix base (S k)))
      (DiffExpr (SumExpr (VarExpr (op_ix base k)) (VarExpr (su_ix base (S k))))
                (VarExpr (sd_ix base (S k)))).

Definition first_constraint : LinearConstraint :=
  EqC (VarExpr (op_ix base 0)) (VarExpr (su_ix base 0)).

Definition limit_constraints (n : nat) : list LinearConstraint :=
  seq 0 n ≫= fun k => [min_constraint k; max_constraint k].

Definition commitment_constraints (n : nat) : list LinearConstraint :=
  (transition_constraint <$> seq 0 (n - 1)) ++ [first_constraint].

Definition model_objective (n : nat) : LinearExpr :=
  SumArray (objective_term <$> seq 0 n).

End ClosedForm.

(** What the build cells return and leave in the solver for the horizon
    [(1, ..., n)], run on the solver [s0]. *)
Definition built_handles (base n : nat) : Handles :=
  assign_handles base (horizon n)
    {| production := fromkeys (horizon n); operating := fromkeys (horizon n);
       start_up := fromkeys (horizon n); shut_down := fromkeys (horizon n) |}.

Definition built_solver (inp : Inputs) (n : nat) (s0 : Solver) : Solver :=
  let base := length (variables s0) in
  {| variables := variables s0 ++ (horizon n ≫= period_vars inp);
     constraints := constraints s0 ++ limit_constraints inp base n
                    ++ commitment_constraints base n;
     objective := Some (Maximization, model_objective inp base n) |}.

(** Domains and constraints of one block of variables, read by variable
    index. *)
Definition period_ok (inp : Inputs) (base : nat) (a : Assignment) (k : nat)
  : Prop :=
  binary (a (op_ix base k)) /\ binary (a (su_ix base k))
  /\ binary (a (sd_ix base k))
  /\ 0 <= a (pr_ix base k) /\ a (pr_ix base k) <= PROD_MAX inp
  /\ a (op_ix base k) * PROD_MIN inp <= a (pr_ix base k)
  /\ a (pr_ix base k) <= a (op_ix base k) * PROD_MAX inp.

Definition block_ok (inp : Inputs) (base n : nat) (a : Assignment) : Prop :=
  (forall k, (k < n)%nat -> period_ok inp base a k)
  /\ (forall k, (S k < n)%nat ->
        a (op_ix base (S k))
        == a (op_ix base k) + a (su_ix base (S k)) - a (sd_ix base (S k)))
  /\ a (op_ix base 0) == a (su_ix base 0).




(** ** Exceptions a cell can raise *)

(** The exceptions of dictionary reads, operand use and number
    conversion. *)
Definition builtin_error (e : Exception) : Prop :=
  match e with
  | KeyError _ | TypeError | AttributeError | OverflowError => True
  | InvalidParameterError | UnsolvedModelError => False
  end.

Definition mild {A} (o : Outcome A) : Prop :=
  match o with
  | Returned _ => True
  | Raised e => builtin_error e
  end.

Definition mild_cell {A} (c : Cell A) : Prop := forall s, mild (c s).1.

(** ** The worked example and its variations *)

(** [times = (1, 2, 3)], [PROD_MIN = 10], [PROD_MAX = 100],
    [PROD_COSTS = {t: 120 for t in times}], [START_UP_COSTS = 10],
    [PRICE = {1: 200, 2: 100, 3: 200}]. *)
Definition example : Inputs :=
  {| times := [1; 2; 3]%Z;
     PROD_MIN := 10;
     PROD_MAX := 100;
     PROD_COSTS := {[1%Z := 120; 2%Z := 120; 3%Z := 120]};
     START_UP_COSTS := 10;
     PRICE := {[1%Z := 200; 2%Z := 100; 3%Z := 200]} |}.

Definition example_handles : Handles := built_handles 0 3.

Definition example_solver : Solver := built_solver example 3 CreateSolver.

(** An assignment given by the list of its values, in variable order
    (operating, start-up, shut-down, production of period 1, then of period
    2, ...). *)
Definition assignment_of (l : list Q) : Assignment := fun x => nth x l 0.

(** What the solver held after [status = solver.Solve()] in the recorded
    run, read off the recorded outputs of the reporting cells: the objective
    value was printed, so the status was [OPTIMAL]; the values are those the
    four loops printed. *)
Definition printed_solution : Solved :=
  {| status := OPTIMAL;
     objective_value := 15980;
     values := assignment_of [1; 1; 0; 100;  0; 0; 1; 0;  1; 1; 0; 100] |}.


(** The worked example with the two output limits exchanged, and with the
    price of period 2 left out. *)
Definition inverted_example : Inputs :=
  {| times := times example; PROD_MIN := 100; PROD_MAX := 10;
     PROD_COSTS := PROD_COSTS example;
     START_UP_COSTS := START_UP_COSTS example; PRICE := PRICE example |}.

Definition uncovered_example : Inputs :=
  {| times := times example; PROD_MIN := PROD_MIN example;
     PROD_MAX := PROD_MAX example; PROD_COSTS := PROD_COSTS example;
     START_UP_COSTS := START_UP_COSTS example;
     PRICE := {[1%Z := 200; 3%Z := 200]} |}.

(** Results a solver may hold for the worked example: the all-zero assignment
    reported as feasible, and a result reported as infeasible. *)
Definition feasible_result : Solved :=
  {| status := FEASIBLE; objective_value := 0; values := all_zero |}.

Definition infeasible_result : Solved :=
  {| status := INFEASIBLE; objective_value := 0; values := all_zero |}.

(** What the build cells return and leave in the solver when they are run
    once more on the solver that holds the model of the worked example. *)
Definition doubled_handles : Handles := built_handles 12 3.

Definition doubled_solver : Solver := built_solver example 3 example_solver.

(** ** Induction on expressions, through the lists of [SumArray] *)

Section LinearExprInd.

Variable P : LinearExpr -> Prop.

Hypothesis HVar : forall v, P (VarExpr v).

Hypothesis HProd : forall e c, P e -> P (ProductCst e c).

Hypothesis HSum : forall x y, P x -> P y -> P (SumExpr x y).

Hypothesis HDiff : forall x y, P x -> P y -> P (DiffExpr x y).

Hypothesis HArr : forall es, Forall P es -> P (SumArray es).

Fixpoint LinearExpr_nested_ind (e : LinearExpr) : P e :=
  match e with
  | VarExpr v => HVar v
  | ProductCst e c => HProd e c (LinearExpr_nested_ind e)
  | SumExpr x y => HSum x y (LinearExpr_nested_ind x) (LinearExpr_nested_ind y)
  | DiffExpr x y => HDiff x y (LinearExpr_nested_ind x) (LinearExpr_nested_ind y)
  | SumArray es =>
      HArr es
        ((fix go (l : list LinearExpr) : Forall P l :=
            match l with
            | [] => List.Forall_nil P
            | x :: l' =>
                @List.Forall_cons _ P x l' (LinearExpr_nested_ind x) (go l')
            end) es)
  end.

End LinearExprInd.

(** ** Further definitions: any horizon, bounds, more examples *)

(** Position of the last occurrence of [t] in [T]. *)
Fixpoint last_pos (T : list Z) (t : Z) : option nat :=
  match T with
  | [] => None
  | x :: T' =>
      match last_pos T' t with
      | Some k => Some (S k)
      | None => if decide (x = t) then Some 0%nat else None
      end
  end.

(** The dictionaries the cell "Variables" leaves for the horizon [T] on a
    solver that held [base] variables. *)
Definition made_handles (base : nat) (T : list Z) : Handles :=
  assign_handles base T
    {| production := fromkeys T; operating := fromkeys T;
       start_up := fromkeys T; shut_down := fromkeys T |}.

(** A read of one of the four dictionaries after the cell "Variables". *)
Definition handle (ix : nat -> nat -> VarIndex) (base : nat) (T : list Z)
    (t : Z) : Outcome VarIndex :=
  match last_pos T t with
  | Some k => Returned (ix base k)
  | None => Raised (KeyError t)
  end.

(** An outcome without its value. *)
Definition void {A} (o : Outcome A) : Outcome unit :=
  match o with
  | Returned _ => Returned tt
  | Raised e => Raised e
  end.

(** The values computed before the first exception. *)
Fixpoint collect {A B} (f : A -> Outcome B) (xs : list A) : list B :=
  match xs with
  | [] => []
  | x :: xs' =>
      match f x with
      | Returned y => y :: collect f xs'
      | Raised _ => []
      end
  end.

(** The two limit constraints written for the time index [t]. *)
Definition limits_at (inp : Inputs) (base : nat) (T : list Z) (t : Z)
  : list LinearConstraint :=
  match last_pos T t with
  | Some k => [min_constraint inp base k; max_constraint inp base k]
  | None => []
  end.

(** The solver after [solver.Maximize(e)]. *)
Definition with_objective (e : LinearExpr) (s : Solver) : Solver :=
  {| variables := variables s; constraints := constraints s;
     objective := Some (Maximization, e) |}.

(** Whether the conversions of [PROD_MAX] and of [PROD_MIN] succeed where a
    build reaches them: with an empty horizon neither is handed to the
    solver. *)
Definition max_output_fits (inp : Inputs) : bool :=
  match times inp with
  | [] => true
  | _ :: _ => fits_double (PROD_MAX inp)
  end.

Definition min_output_fits (inp : Inputs) : bool :=
  match times inp with
  | [] => true
  | _ :: _ => fits_double (PROD_MIN inp)
  end.

(** Variations of the worked example's horizon: out of order, with a
    repeated index, without index 1, and with a gap. *)
Definition with_times (T : list Z) : Inputs :=
  {| times := T; PROD_MIN := PROD_MIN example; PROD_MAX := PROD_MAX example;
     PROD_COSTS := PROD_COSTS example;
     START_UP_COSTS := START_UP_COSTS example; PRICE := PRICE example |}.

Definition shuffled_example : Inputs := with_times [1; 3; 2]%Z.

Definition repeated_example : Inputs := with_times [1; 2; 2]%Z.

Definition late_example : Inputs := with_times [2; 3]%Z.

Definition gapped_example : Inputs := with_times [1; 3]%Z.

(** The worked example with a number beyond the range of a double: the
    maximum output, the price of period 1, and the minimum output. *)
Definition oversized_example : Inputs :=
  {| times := times example; PROD_MIN := PROD_MIN example;
     PROD_MAX := inject_Z (10 ^ 400); PROD_COSTS := PROD_COSTS example;
     START_UP_COSTS := START_UP_COSTS example; PRICE := PRICE example |}.

Definition overpriced_example : Inputs :=
  {| times := times example; PROD_MIN := PROD_MIN example;
     PROD_MAX := PROD_MAX example; PROD_COSTS := PROD_COSTS example;
     START_UP_COSTS := START_UP_COSTS example;
     PRICE := {[1%Z := inject_Z (10 ^ 400); 2%Z := 100; 3%Z := 200]} |}.

Definition overloaded_example : Inputs :=
  {| times := times example; PROD_MIN := inject_Z (10 ^ 400);
     PROD_MAX := PROD_MAX example; PROD_COSTS := PROD_COSTS example;
     START_UP_COSTS := START_UP_COSTS example; PRICE := PRICE example |}.

(** The positive part of a margin. *)
Definition positive_part (x : Q) : Q := if Qle_bool 0 x then x else 0.

(** The profit of producing [PROD_MAX] in every period whose price exceeds
    the cost, start-ups not charged. *)
Definition profit_cap (inp : Inputs) : Q :=
  fold_right
    (fun t acc =>
       positive_part (price_at inp t - cost_at inp t) * PROD_MAX inp + acc)
    0 (times inp).

(** The worked example with the market price at or below the variable cost
    in every period. *)
Definition unprofitable_example : Inputs :=
  {| times := times example; PROD_MIN := PROD_MIN example;
     PROD_MAX := PROD_MAX example; PROD_COSTS := PROD_COSTS example;
     START_UP_COSTS := START_UP_COSTS example;
     PRICE := {[1%Z := 120; 2%Z := 100; 3%Z := 90]} |}.

(** The worked example on a better market: higher prices in periods 1 and
    2, a lower start-up cost. *)
Definition better_example : Inputs :=
  {| times := times example; PROD_MIN := PROD_MIN example;
     PROD_MAX := PROD_MAX example; PROD_COSTS := PROD_COSTS example;
     START_UP_COSTS := 5;
     PRICE := {[1%Z := 210; 2%Z := 130; 3%Z := 200]} |}.

(** An optimal assignment for the better market: the plant runs at full
    output in all three periods. *)
Definition better_solution : Assignment :=
  assignment_of [1; 1; 0; 100;  1; 0; 0; 100;  1; 0; 0; 100].

(** * Lemmas *)

(** ** Running the cells *)

Lemma add_vars_app vs ws s :
  add_vars ws (add_vars vs s) = add_vars (vs ++ ws) s.
Proof. unfold add_vars; simpl. by rewrite app_assoc. Qed.

Lemma add_vars_nil s : add_vars [] s = s.
Proof. destruct s; unfold add_vars; simpl. by rewrite app_nil_r. Qed.

Lemma add_constraints_app cs ds s :
  add_constraints ds (add_constraints cs s) = add_constraints (cs ++ ds) s.
Proof. unfold add_constraints; simpl. by rewrite app_assoc. Qed.

Lemma add_constraints_nil s : add_constraints [] s = s.
Proof. destruct s; unfold add_constraints; simpl. by rewrite app_nil_r. Qed.

Lemma bind_run {A B} (m : Cell A) (k : A -> Cell B) (s : Solver) :
  (m ≫= k) s = match m s with
               | (Returned a, s') => k a s'
               | (Raised e, s') => (Raised e, s')
               end.
Proof. reflexivity. Qed.

Lemma fits_double_0 : fits_double 0 = true.
Proof. vm_compute. reflexivity. Qed.

Lemma fits_double_1 : fits_double 1 = true.
Proof. vm_compute. reflexivity. Qed.

Lemma Add_run c s :
  convertible_constraint c = true ->
  Add c s = (Returned tt, add_constraints [c] s).
Proof. intros H. unfold Add. by rewrite H. Qed.

Lemma Add_OverflowError c s :
  convertible_constraint c = false -> Add c s = (Raised OverflowError, s).
Proof. intros H. unfold Add. by rewrite H. Qed.

Lemma Maximize_run e s :
  convertible e = true -> Maximize e s = (Returned tt, with_objective e s).
Proof. intros H. unfold Maximize. by rewrite H. Qed.

Lemma Maximize_OverflowError e s :
  convertible e = false ->
  Maximize e s = (Raised OverflowError, with_objective (SumArray []) s).
Proof. intros H. unfold Maximize. by rewrite H. Qed.

Lemma register_period_run inp t h s :
  fits_double (PROD_MAX inp) = true ->
  register_period inp t h s
  = (Returned (assign_handles (length (variables s)) [t] h),
     add_vars (period_vars inp t) s).
Proof.
  intros Hfit. unfold register_period, IntVar, NumVar, MakeVar, add_vars.
  rewrite fits_double_0, fits_double_1, Hfit. cbn [andb].
  repeat (rewrite bind_run; cbn).
  rewrite !length_app. cbn [length].
  replace (length (variables s) + 1 + 1 + 1)%nat
    with (length (variables s) + 3)%nat by lia.
  replace (length (variables s) + 1 + 1)%nat
    with (length (variables s) + 2)%nat by lia.
  by rewrite <- !app_assoc.
Qed.

(** With an upper bound that does not convert, the pass registers the three
    binary variables and raises at [solver.NumVar]. *)
Lemma register_period_TypeError inp t h s :
  fits_double (PROD_MAX inp) = false ->
  register_period inp t h s
  = (Raised TypeError, add_vars (take 3 (period_vars inp t)) s).
Proof.
  intros Hfit. unfold register_period, IntVar, NumVar, MakeVar, add_vars.
  rewrite fits_double_0, fits_double_1, Hfit. cbn [andb].
  repeat (rewrite bind_run; cbn).
  by rewrite <- !app_assoc.
Qed.

Lemma make_variables_loop inp T h0 s0 :
  fits_double (PROD_MAX inp) = true ->
  for_each T (register_period inp) h0 s0
  = (Returned (assign_handles (length (variables s0)) T h0),
     add_vars (T ≫= period_vars inp) s0).
Proof.
  intros Hfit. revert h0 s0. induction T as [|t T IH]; intros h0 s0.
  - simpl. by rewrite add_vars_nil.
  - cbn [for_each]. rewrite bind_run, register_period_run, IH by done.
    rewrite add_vars_app. cbn [add_vars variables]. rewrite length_app.
    reflexivity.
Qed.

(** The cell "Variables" on any horizon. *)
Lemma make_variables_run inp s :
  make_variables inp s
  = if max_output_fits inp then
      (Returned (made_handles (length (variables s)) (times inp)),
       add_vars (times inp ≫= period_vars inp) s)
    else (Raised TypeError, add_vars (take 3 (times inp ≫= period_vars inp)) s).
Proof.
  unfold make_variables, max_output_fits, made_handles.
  destruct (times inp) as [|t T] eqn:HT.
  - cbn. by rewrite add_vars_nil.
  - rewrite <- HT. destruct (fits_double (PROD_MAX inp)) eqn:Hfit.
    + by apply make_variables_loop.
    + rewrite HT at 1 6. cbn [for_each].
      by rewrite bind_run, register_period_TypeError.
Qed.

Lemma assign_handles_other base T h t :
  t ∉ T ->
  let h' := assign_handles base T h in
  operating h' !! t = operating h !! t
  /\ start_up h' !! t = start_up h !! t
  /\ shut_down h' !! t = shut_down h !! t
  /\ production h' !! t = production h !! t.
Proof.
  revert base h. induction T as [|x T IH]; intros base h Hnot; cbn.
  - done.
  - apply not_elem_of_cons in Hnot as [Hne Hnot].
    destruct (IH (base + 4)%nat
                {| production := <[x := Some (base + 3)%nat]> (production h);
                   operating := <[x := Some base]> (operating h);
                   start_up := <[x := Some (base + 1)%nat]> (start_up h);
                   shut_down := <[x := Some (base + 2)%nat]> (shut_down h) |}
                Hnot) as (-> & -> & -> & ->).
    cbn. by rewrite !lookup_insert_ne.
Qed.

Lemma assign_handles_lookup base T h k t :
  NoDup T -> T !! k = Some t ->
  let h' := assign_handles base T h in
  operating h' !! t = Some (Some (op_ix base k))
  /\ start_up h' !! t = Some (Some (su_ix base k))
  /\ shut_down h' !! t = Some (Some (sd_ix base k))
  /\ production h' !! t = Some (Some (pr_ix base k)).
Proof.
  revert base h k. induction T as [|x T IH]; intros base h k Hnd Hk; [done|].
  apply NoDup_cons in Hnd as [Hx Hnd]. destruct k as [|k]; cbn in Hk |- *.
  - injection Hk as ->.
    destruct (assign_handles_other (base + 4)%nat T
                {| production := <[t := Some (base + 3)%nat]> (production h);
                   operating := <[t := Some base]> (operating h);
                   start_up := <[t := Some (base + 1)%nat]> (start_up h);
                   shut_down := <[t := Some (base + 2)%nat]> (shut_down h) |}
                t Hx) as (-> & -> & -> & ->).
    cbn. rewrite !lookup_insert_eq.
    unfold op_ix, su_ix, sd_ix, pr_ix.
    repeat split; do 2 f_equal; lia.
  - destruct (IH (base + 4)%nat
                {| production := <[x := Some (base + 3)%nat]> (production h);
                   operating := <[x := Some base]> (operating h);
                   start_up := <[x := Some (base + 1)%nat]> (start_up h);
                   shut_down := <[x := Some (base + 2)%nat]> (shut_down h) |}
                k Hnd Hk) as (-> & -> & -> & ->).
    unfold op_ix, su_ix, sd_ix, pr_ix.
    repeat split; do 2 f_equal; lia.
Qed.

Lemma comprehension_indexed {A B} (f : A -> Outcome B) (g : nat -> B) xs off :
  (forall k x, xs !! k = Some x -> f x = Returned (g (off + k)%nat)) ->
  comprehension f xs = Returned (g <$> seq off (length xs)).
Proof.
  revert off. induction xs as [|x xs IH]; intros off Hf; [done|].
  cbn. rewrite (Hf 0%nat x eq_refl). cbn.
  rewrite (IH (S off)).
  - cbn. by rewrite Nat.add_0_r.
  - intros k y Hk. rewrite (Hf (S k) y Hk). do 2 f_equal. lia.
Qed.

Lemma add_limits_run inp h t c1 c2 s :
  min_limit inp h t = Returned c1 -> max_limit inp h t = Returned c2 ->
  convertible_constraint c1 = true -> convertible_constraint c2 = true ->
  add_limits inp h t tt s = (Returned tt, add_constraints [c1; c2] s).
Proof.
  intros H1 H2 F1 F2. unfold add_limits.
  rewrite bind_run, H1. cbn [lift]. rewrite bind_run, (Add_run _ _ F1).
  rewrite bind_run, H2. cbn [lift]. rewrite (Add_run _ _ F2).
  by rewrite add_constraints_app.
Qed.

(** The transition constraints carry no coefficient. *)
Lemma transition_convertible h t c :
  transition h t = Returned c -> convertible_constraint c = true.
Proof.
  unfold transition.
  destruct (getvar (operating h) t); cbn; [|done].
  destruct (getvar (operating h) (t - 1)); cbn; [|done].
  destruct (getvar (start_up h) t); cbn; [|done].
  destruct (getvar (shut_down h) t); cbn; [|done].
  by intros [= <-].
Qed.

Lemma first_period_convertible h c :
  first_period h = Returned c -> convertible_constraint c = true.
Proof.
  unfold first_period.
  destruct (getvar (operating h) 1); cbn; [|done].
  destruct (getvar (start_up h) 1); cbn; [|done].
  by intros [= <-].
Qed.

Lemma add_transition_run h t c s :
  transition h t = Returned c ->
  add_transition h t tt s = (Returned tt, add_constraints [c] s).
Proof.
  intros H1. unfold add_transition. rewrite bind_run, H1. cbn [lift].
  apply Add_run. by apply (transition_convertible h t).
Qed.

Lemma add_limits_loop inp h (g1 g2 : nat -> LinearConstraint) T off s :
  (forall k, convertible_constraint (g1 k) = true
             /\ convertible_constraint (g2 k) = true) ->
  (forall k t, T !! k = Some t ->
     min_limit inp h t = Returned (g1 (off + k)%nat)
     /\ max_limit inp h t = Returned (g2 (off + k)%nat)) ->
  for_each T (add_limits inp h) tt s
  = (Returned tt,
     add_constraints (seq off (length T) ≫= fun k => [g1 k; g2 k]) s).
Proof.
  intros Hfit. revert off s. induction T as [|t T IH]; intros off s Hg.
  - cbn. by rewrite add_constraints_nil.
  - destruct (Hg 0%nat t eq_refl) as [H1 H2].
    rewrite Nat.add_0_r in H1, H2.
    cbn [for_each].
    rewrite bind_run, (add_limits_run _ _ _ _ _ _ H1 H2) by apply Hfit.
    rewrite (IH (S off)).
    + by rewrite add_constraints_app.
    + intros k x Hk. destruct (Hg (S k) x Hk) as [-> ->].
      by replace (off + S k)%nat with (S off + k)%nat by lia.
Qed.

Lemma add_transition_loop h (g : nat -> LinearConstraint) T off s :
  (forall k t, T !! k = Some t ->
     transition h t = Returned (g (off + k)%nat)) ->
  for_each T (add_transition h) tt s
  = (Returned tt, add_constraints (g <$> seq off (length T)) s).
Proof.
  revert off s. induction T as [|t T IH]; intros off s Hg.
  - cbn. by rewrite add_constraints_nil.
  - pose proof (Hg 0%nat t eq_refl) as H1. rewrite Nat.add_0_r in H1.
    cbn [for_each]. rewrite bind_run, (add_transition_run _ _ _ _ H1).
    rewrite (IH (S off)).
    + by rewrite add_constraints_app.
    + intros k x Hk. rewrite (Hg (S k) x Hk).
      by replace (off + S k)%nat with (S off + k)%nat by lia.
Qed.

Lemma horizon_lookup n k t :
  horizon n !! k = Some t <-> t = period k /\ (k < n)%nat.
Proof. unfold horizon, period. rewrite lookup_seqZ. lia. Qed.

Lemma horizon_length n : length (horizon n) = n.
Proof. unfold horizon. rewrite length_seqZ. lia. Qed.

Lemma horizon_NoDup n : NoDup (horizon n).
Proof. apply NoDup_seqZ. Qed.

Lemma horizon_elem n t : t ∈ horizon n <-> (1 <= t <= Z.of_nat n)%Z.
Proof. unfold horizon. rewrite elem_of_seqZ. lia. Qed.

Lemma built_handles_lookup base n k :
  (k < n)%nat ->
  let h := built_handles base n in
  operating h !! period k = Some (Some (op_ix base k))
  /\ start_up h !! period k = Some (Some (su_ix base k))
  /\ shut_down h !! period k = Some (Some (sd_ix base k))
  /\ production h !! period k = Some (Some (pr_ix base k)).
Proof.
  intros Hk. apply assign_handles_lookup; [apply horizon_NoDup|].
  by apply horizon_lookup.
Qed.

Lemma getvar_Some (d : VarDict) t v :
  d !! t = Some (Some v) -> getvar d t = Returned v.
Proof. unfold getvar. by intros ->. Qed.

Lemma representableb_sound inp : representableb inp = true -> representable inp.
Proof.
  unfold representableb, representable. intros H t Ht.
  apply list_elem_of_In in Ht.
  pose proof (proj1 (List.forallb_forall _ _) H t Ht) as Hf.
  cbv beta in Hf. rewrite !andb_true_iff in Hf. tauto.
Qed.

Lemma objective_terms_convertible inp base ks :
  (forall k, k ∈ ks ->
     fits_double (price_at inp (period k) - cost_at inp (period k)) = true
     /\ fits_double (START_UP_COSTS inp) = true) ->
  forallb convertible (objective_term inp base <$> ks) = true.
Proof.
  induction ks as [|k ks IH]; intros H; [done|].
  rewrite fmap_cons. cbn [forallb convertible objective_term].
  destruct (H k) as [-> ->]; [apply list_elem_of_here|]. cbn [andb].
  apply IH. intros j Hj. apply H. by apply list_elem_of_further.
Qed.

Theorem build_cells_closed inp n s0 :
  times inp = horizon n -> (0 < n)%nat -> covered inp -> representable inp ->
  build_cells inp s0
  = (Returned (built_handles (length (variables s0)) n), built_solver inp n s0).
Proof.
  intros HT Hn Hcov Hrep. set (base := length (variables s0)).
  assert (Hin : forall k, (k < n)%nat -> period k ∈ times inp).
  { intros k Hk. rewrite HT. apply horizon_elem. unfold period. lia. }
  destruct (Hrep _ (Hin 0%nat Hn)) as (Fmax & Fmin & Fsu & _).
  assert (Hh : forall k, (k < n)%nat ->
    getvar (operating (built_handles base n)) (period k) = Returned (op_ix base k)
    /\ getvar (start_up (built_handles base n)) (period k) = Returned (su_ix base k)
    /\ getvar (shut_down (built_handles base n)) (period k) = Returned (sd_ix base k)
    /\ getvar (production (built_handles base n)) (period k) = Returned (pr_ix base k)).
  { intros k Hk. destruct (built_handles_lookup base n k Hk) as (?&?&?&?).
    repeat split; by apply getvar_Some. }
  unfold build_cells. rewrite bind_run. unfold make_variables.
  rewrite HT, make_variables_loop by done.
  fold base. fold (built_handles base n).
  (* objective *)
  rewrite bind_run. unfold set_objective. rewrite bind_run.
  rewrite HT.
  rewrite (comprehension_indexed _ (objective_term inp base) _ 0).
  2:{ intros k t [-> Hk]%horizon_lookup. cbn.
      destruct (Hcov (period k)) as [[p Hp] [c Hc]].
      { rewrite HT. apply horizon_elem. unfold period. lia. }
      destruct (Hh k Hk) as (_ & Hsu & _ & Hpr).
      unfold obj_term, getitem, objective_term, price_at, cost_at.
      rewrite Hp, Hc. cbn. rewrite Hpr. cbn. by rewrite Hsu. }
  cbn [lift]. rewrite horizon_length.
  (* production limits *)
  rewrite Maximize_run.
  2:{ cbn [convertible]. apply objective_terms_convertible.
      intros k Hk%elem_of_seq. by destruct (Hrep _ (Hin k ltac:(lia))) as (_&_&?&?). }
  unfold with_objective. cbn [add_vars variables constraints objective].
  rewrite bind_run. unfold add_production_limits. rewrite HT.
  rewrite (add_limits_loop inp _ (min_constraint inp base)
             (max_constraint inp base) _ 0).
  2:{ intros k. cbn. by rewrite Fmin, Fmax. }
  2:{ intros k t [-> Hk]%horizon_lookup. cbn.
      destruct (Hh k Hk) as (Hop & _ & _ & Hpr).
      unfold min_limit, max_limit. by rewrite Hop, Hpr. }
  rewrite horizon_length.
  (* commitment logic *)
  rewrite bind_run. unfold add_commitment_logic. rewrite HT.
  rewrite bind_run.
  rewrite (add_transition_loop _ (transition_constraint base) _ 0).
  2:{ intros k t Hk. rewrite lookup_tail in Hk.
      apply horizon_lookup in Hk as [-> Hk]. cbn.
      destruct (Hh (S k) Hk) as (Hop & Hsu & Hsd & _).
      destruct (Hh k ltac:(lia)) as (Hprev & _).
      unfold transition. rewrite Hop. cbn.
      replace (period (S k) - 1)%Z with (period k) by (unfold period; lia).
      rewrite Hprev. cbn. rewrite Hsu. cbn. by rewrite Hsd. }
  replace (length (tail (horizon n))) with (n - 1)%nat
    by (rewrite <- (horizon_length n) at 1; destruct (horizon n); cbn; lia).
  rewrite bind_run. unfold first_period.
  destruct (Hh 0%nat Hn) as (Hop & Hsu & _).
  change (period 0) with 1%Z in Hop, Hsu. rewrite Hop. cbn. rewrite Hsu. cbn.
  unfold built_solver, add_constraints, limit_constraints,
    commitment_constraints, first_constraint; cbn. fold base.
  by rewrite <- !app_assoc.
Qed.

(** ** Dictionaries after the cell "Variables", for any horizon *)

Lemma last_pos_None T t : last_pos T t = None <-> t ∉ T.
Proof.
  induction T as [|x T IH]; cbn.
  - split; [intros _; apply not_elem_of_nil | done].
  - rewrite not_elem_of_cons. destruct (last_pos T t) as [k|].
    + split; [done|]. intros [_ H]. by apply IH in H.
    + destruct (decide (x = t)) as [->|Hne].
      * split; [done | intros [H _]; done].
      * split; [intros _|done]. split; [congruence | by apply IH].
Qed.

Lemma last_pos_Some T t k :
  last_pos T t = Some k <-> T !! k = Some t /\ t ∉ drop (S k) T.
Proof.
  revert k. induction T as [|x T IH]; intros k; cbn.
  - split; [done | intros [H _]; done].
  - destruct (last_pos T t) as [j|] eqn:Hj.
    + split.
      * intros [= <-]. cbn. by apply IH.
      * intros [Hk Hd]. destruct k as [|k]; cbn in *.
        -- destruct (proj1 (IH j) eq_refl) as [Hj' _].
           exfalso. apply Hd. rewrite drop_0.
           apply list_elem_of_lookup. eauto.
        -- f_equal. assert (Some j = Some k) as [= ->]; [|done].
           by apply IH.
    + apply last_pos_None in Hj. destruct (decide (x = t)) as [->|Hne].
      * split.
        -- intros [= <-]. cbn. by rewrite drop_0.
        -- intros [Hk Hd]. destruct k as [|k]; [done|]. cbn in Hk.
           exfalso. apply Hj, list_elem_of_lookup. eauto.
      * split; [done|]. intros [Hk _]. destruct k as [|k]; cbn in Hk.
        -- congruence.
        -- exfalso. apply Hj, list_elem_of_lookup. eauto.
Qed.

Lemma last_pos_elem T t : t ∈ T <-> is_Some (last_pos T t).
Proof.
  rewrite <- not_eq_None_Some, last_pos_None.
  split; [tauto|]. intros H. by destruct (decide (t ∈ T)).
Qed.

Lemma last_pos_NoDup T k t : NoDup T -> T !! k = Some t -> last_pos T t = Some k.
Proof.
  intros Hnd Hk. apply last_pos_Some. split; [done|].
  intros Hin. apply list_elem_of_lookup in Hin as [j Hj].
  rewrite lookup_drop in Hj.
  pose proof (NoDup_lookup _ _ _ _ Hnd Hk Hj). lia.
Qed.

Lemma fromkeys_lookup T t :
  fromkeys T !! t = if decide (t ∈ T) then Some None else None.
Proof.
  unfold fromkeys.
  assert (forall d : VarDict,
            foldl (fun d k => <[k := None]> d) d T !! t
            = if decide (t ∈ T) then Some None else d !! t) as H.
  { induction T as [|x T IH]; intros d; cbn.
    - destruct (decide (t ∈ [])) as [H|_]; [by apply elem_of_nil in H | done].
    - rewrite IH. destruct (decide (t ∈ T)) as [Hin|Hnot].
      + rewrite decide_True; [done|]. by apply list_elem_of_further.
      + destruct (decide (x = t)) as [->|Hne].
        * rewrite decide_True by apply list_elem_of_here.
          by rewrite lookup_insert_eq.
        * rewrite decide_False.
          -- by rewrite lookup_insert_ne.
          -- rewrite elem_of_cons. intros [?|?]; congruence. }
  rewrite H. by destruct (decide (t ∈ T)).
Qed.

Lemma assign_handles_last base T h t :
  let h' := assign_handles base T h in
  operating h' !! t = match last_pos T t with
                      | Some k => Some (Some (op_ix base k))
                      | None => operating h !! t
                      end
  /\ start_up h' !! t = match last_pos T t with
                        | Some k => Some (Some (su_ix base k))
                        | None => start_up h !! t
                        end
  /\ shut_down h' !! t = match last_pos T t with
                         | Some k => Some (Some (sd_ix base k))
                         | None => shut_down h !! t
                         end
  /\ production h' !! t = match last_pos T t with
                          | Some k => Some (Some (pr_ix base k))
                          | None => production h !! t
                          end.
Proof.
  revert base h. induction T as [|x T IH]; intros base h; [done|].
  cbn [assign_handles last_pos].
  destruct (IH (base + 4)%nat
              {| production := <[x := Some (base + 3)%nat]> (production h);
                 operating := <[x := Some base]> (operating h);
                 start_up := <[x := Some (base + 1)%nat]> (start_up h);
                 shut_down := <[x := Some (base + 2)%nat]> (shut_down h) |})
    as (-> & -> & -> & ->).
  unfold op_ix, su_ix, sd_ix, pr_ix.
  destruct (last_pos T t) as [k|].
  - split_and!; do 2 f_equal; lia.
  - cbn. destruct (decide (x = t)) as [->|Hne].
    + rewrite !lookup_insert_eq. split_and!; do 2 f_equal; lia.
    + by rewrite !lookup_insert_ne.
Qed.

Lemma made_handles_getvar base T t :
  let h := made_handles base T in
  getvar (operating h) t = handle op_ix base T t
  /\ getvar (start_up h) t = handle su_ix base T t
  /\ getvar (shut_down h) t = handle sd_ix base T t
  /\ getvar (production h) t = handle pr_ix base T t.
Proof.
  cbn. unfold made_handles, getvar, handle.
  destruct (assign_handles_last base T
              {| production := fromkeys T; operating := fromkeys T;
                 start_up := fromkeys T; shut_down := fromkeys T |} t)
    as (-> & -> & -> & ->).
  destruct (last_pos T t) as [k|] eqn:Hk; [done|].
  apply last_pos_None in Hk. cbn. rewrite fromkeys_lookup.
  by rewrite decide_False.
Qed.

(** ** The build cells on any horizon and any solver state *)

Lemma comprehension_collect {A B} (f : A -> Outcome B) xs ys :
  comprehension f xs = Returned ys -> collect f xs = ys.
Proof.
  revert ys. induction xs as [|x xs IH]; intros ys; cbn.
  - by intros [= <-].
  - destruct (f x) as [y|e]; cbn; [|done].
    destruct (comprehension f xs) as [zs|e]; cbn; [|done].
    intros [= <-]. by rewrite (IH zs).
Qed.

Lemma comprehension_length {A B} (f : A -> Outcome B) xs ys :
  comprehension f xs = Returned ys -> length ys = length xs.
Proof.
  revert ys. induction xs as [|x xs IH]; intros ys; cbn.
  - by intros [= <-].
  - destruct (f x) as [y|e]; cbn; [|done].
    destruct (comprehension f xs) as [zs|e]; cbn; [|done].
    intros [= <-]. cbn. by rewrite (IH zs).
Qed.

Lemma comprehension_Returned {A B} (f : A -> Outcome B) xs :
  (exists ys, comprehension f xs = Returned ys)
  <-> forall x, x ∈ xs -> exists y, f x = Returned y.
Proof.
  induction xs as [|x xs IH]; cbn.
  - split; [intros _ x Hx; by apply elem_of_nil in Hx | eauto].
  - split.
    + intros [ys Hys] z Hz. destruct (f x) as [y|e] eqn:Hx; cbn in Hys; [|done].
      destruct (comprehension f xs) as [zs|e] eqn:Hc; cbn in Hys; [|done].
      apply elem_of_cons in Hz as [-> | Hz]; [eauto|].
      apply IH; eauto.
    + intros Hall. destruct (Hall x) as [y ->]; [apply list_elem_of_here|].
      destruct (proj2 IH) as [zs ->]; [|cbn; eauto].
      intros z Hz. apply Hall. by apply list_elem_of_further.
Qed.

(** An exception of a comprehension is the exception of its first failing
    element. *)
Lemma comprehension_first {A B} (f : A -> Outcome B) pre x post e :
  (forall z, z ∈ pre -> exists y, f z = Returned y) -> f x = Raised e ->
  comprehension f (pre ++ x :: post) = Raised e.
Proof.
  intros Hpre Hx. induction pre as [|z pre IH]; cbn.
  - by rewrite Hx.
  - destruct (Hpre z) as [y ->]; [apply list_elem_of_here|]. cbn.
    rewrite IH; [done|]. intros w Hw. apply Hpre. by apply list_elem_of_further.
Qed.

Lemma comprehension_Raised {A B} (f : A -> Outcome B) xs e :
  comprehension f xs = Raised e ->
  exists pre x post, xs = pre ++ x :: post
                     /\ (forall z, z ∈ pre -> exists y, f z = Returned y)
                     /\ f x = Raised e.
Proof.
  induction xs as [|x xs IH]; cbn; [done|].
  destruct (f x) as [y|e'] eqn:Hx; cbn.
  - destruct (comprehension f xs) as [zs|e'] eqn:Hc; cbn; [done|].
    intros [= ->]. destruct (IH eq_refl) as (pre & z & post & -> & Hpre & Hz).
    exists (x :: pre), z, post. split_and!; [done| |done].
    intros w [-> | Hw]%elem_of_cons; eauto.
  - intros [= ->]. exists [], x, xs. split_and!; [done| |done].
    intros w Hw. by apply elem_of_nil in Hw.
Qed.

Lemma collect_length {A B} (f : A -> Outcome B) pre x post e :
  (forall z, z ∈ pre -> exists y, f z = Returned y) -> f x = Raised e ->
  length (collect f (pre ++ x :: post)) = length pre.
Proof.
  intros Hpre Hx. induction pre as [|z pre IH]; cbn.
  - by rewrite Hx.
  - destruct (Hpre z) as [y ->]; [apply list_elem_of_here|]. cbn.
    rewrite IH; [done|]. intros w Hw. apply Hpre. by apply list_elem_of_further.
Qed.

Lemma add_transition_loop_any h T s :
  for_each T (add_transition h) tt s
  = (void (comprehension (transition h) T),
     add_constraints (collect (transition h) T) s).
Proof.
  revert s. induction T as [|t T IH]; intros s.
  - cbn. by rewrite add_constraints_nil.
  - cbn [for_each comprehension collect]. rewrite bind_run.
    destruct (transition h t) as [c|e] eqn:Ht.
    + rewrite (add_transition_run h t c s Ht), IH, add_constraints_app.
      cbn. by destruct (comprehension (transition h) T).
    + unfold add_transition. rewrite bind_run, Ht. cbn.
      by rewrite add_constraints_nil.
Qed.

Lemma add_limits_loop_keyed inp h (g : Z -> list LinearConstraint) T s :
  (forall t, t ∈ T ->
     exists c1 c2, min_limit inp h t = Returned c1
                   /\ max_limit inp h t = Returned c2 /\ g t = [c1; c2]
                   /\ convertible_constraint c1 = true
                   /\ convertible_constraint c2 = true) ->
  for_each T (add_limits inp h) tt s
  = (Returned tt, add_constraints (T ≫= g) s).
Proof.
  revert s. induction T as [|t T IH]; intros s Hg.
  - cbn. by rewrite add_constraints_nil.
  - destruct (Hg t) as (c1 & c2 & H1 & H2 & Hgt & F1 & F2);
      [apply list_elem_of_here|].
    cbn [for_each].
    rewrite bind_run, (add_limits_run _ _ _ _ _ _ H1 H2 F1 F2), IH.
    + rewrite add_constraints_app.
      change ((t :: T) ≫= g) with (g t ++ (T ≫= g)). by rewrite Hgt.
    + intros x Hx. apply Hg. by apply list_elem_of_further.
Qed.

(** With a lower limit that does not convert, the first pass of the loop of
    cell "Production limits" raises at its first [solver.Add]. *)
Lemma add_limits_OverflowError inp h t T c1 s :
  min_limit inp h t = Returned c1 -> convertible_constraint c1 = false ->
  for_each (t :: T) (add_limits inp h) tt s = (Raised OverflowError, s).
Proof.
  intros H1 F1. cbn [for_each]. rewrite bind_run. unfold add_limits.
  rewrite bind_run, H1. cbn [lift]. rewrite bind_run.
  by rewrite (Add_OverflowError _ _ F1).
Qed.

Lemma max_output_fits_elem inp t :
  t ∈ times inp -> max_output_fits inp = fits_double (PROD_MAX inp).
Proof.
  unfold max_output_fits. destruct (times inp); [|done].
  intros H. by apply elem_of_nil in H.
Qed.

Lemma min_output_fits_elem inp t :
  t ∈ times inp -> min_output_fits inp = fits_double (PROD_MIN inp).
Proof.
  unfold min_output_fits. destruct (times inp); [|done].
  intros H. by apply elem_of_nil in H.
Qed.

(** What the build cells do, for every input and every solver state.  The
    cell "Variables" raises [TypeError] when [PROD_MAX] does not convert;
    each later cell either completes or raises and leaves what was
    registered so far, [OverflowError] being raised by [solver.Maximize] and
    by the first [solver.Add] for a coefficient that does not convert. *)
Lemma build_cells_run inp s :
  let T := times inp in
  let base := length (variables s) in
  let h := made_handles base T in
  let s1 := add_vars (T ≫= period_vars inp) s in
  build_cells inp s
  = if max_output_fits inp then
      match comprehension (obj_term inp h) T with
      | Raised e => (Raised e, s1)
      | Returned es =>
          if convertible (SumArray es) then
            if min_output_fits inp then
              let s3 := add_constraints (T ≫= limits_at inp base T)
                          (with_objective (SumArray es) s1) in
              match comprehension (transition h) (tail T) with
              | Raised e =>
                  (Raised e,
                   add_constraints (collect (transition h) (tail T)) s3)
              | Returned cs =>
                  match first_period h with
                  | Raised e => (Raised e, add_constraints cs s3)
                  | Returned c => (Returned h, add_constraints (cs ++ [c]) s3)
                  end
              end
            else (Raised OverflowError, with_objective (SumArray es) s1)
          else (Raised OverflowError, with_objective (SumArray []) s1)
      end
    else (Raised TypeError, add_vars (take 3 (T ≫= period_vars inp)) s).
Proof.
  cbv zeta. unfold build_cells. rewrite bind_run, make_variables_run.
  set (T := times inp). set (base := length (variables s)).
  set (h := made_handles base T). set (s1 := add_vars (T ≫= period_vars inp) s).
  destruct (max_output_fits inp) eqn:Fmax; [|done].
  rewrite bind_run. unfold set_objective. rewrite bind_run. fold T.
  destruct (comprehension (obj_term inp h) T) as [es|e]; [|done].
  cbn [lift]. destruct (convertible (SumArray es)) eqn:Fobj.
  2:{ by rewrite (Maximize_OverflowError _ _ Fobj). }
  rewrite (Maximize_run _ _ Fobj), bind_run.
  unfold add_production_limits. fold T.
  assert (Hlim : forall t k, last_pos T t = Some k ->
            min_limit inp h t = Returned (min_constraint inp base k)
            /\ max_limit inp h t = Returned (max_constraint inp base k)).
  { intros t k Hk.
    destruct (made_handles_getvar base T t) as (Hop & _ & _ & Hpr).
    fold h in Hop, Hpr. unfold handle in Hop, Hpr. rewrite Hk in Hop, Hpr.
    unfold min_limit, max_limit. by rewrite Hop, Hpr. }
  destruct (min_output_fits inp) eqn:Fmin.
  2:{ unfold min_output_fits in Fmin. fold T in Fmin.
      destruct T as [|t T'] eqn:HT; [done|].
      destruct (proj1 (last_pos_elem (t :: T') t)) as [k Hk];
        [apply list_elem_of_here|].
      destruct (Hlim t k Hk) as [H1 _].
      rewrite (add_limits_OverflowError inp h t T' _ _ H1); [done|].
      cbn. by rewrite Fmin. }
  rewrite (add_limits_loop_keyed inp h (limits_at inp base T)).
  2:{ intros t Ht. rewrite (max_output_fits_elem inp t Ht) in Fmax.
      rewrite (min_output_fits_elem inp t Ht) in Fmin.
      apply last_pos_elem in Ht as [k Hk].
      destruct (Hlim t k Hk) as [H1 H2]. unfold limits_at. rewrite Hk.
      eexists _, _. split_and!; [exact H1 | exact H2 | reflexivity | |];
        cbn; by rewrite ?Fmin, ?Fmax. }
  rewrite bind_run. unfold add_commitment_logic. fold T.
  rewrite bind_run, add_transition_loop_any.
  destruct (comprehension (transition h) (tail T)) as [cs|e] eqn:Hc; [|done].
  cbn [void]. rewrite (comprehension_collect _ _ _ Hc), bind_run.
  destruct (first_period h) as [c|e] eqn:Hf; [|done].
  cbn [lift]. rewrite (Add_run _ _ (first_period_convertible h c Hf)).
  by rewrite add_constraints_app.
Qed.

(** The coefficients of the objective are the margins and the start-up
    cost. *)
Lemma obj_term_shape inp h t e :
  obj_term inp h t = Returned e ->
  exists pr su,
    e = DiffExpr (ProductCst (VarExpr pr) (price_at inp t - cost_at inp t))
                 (ProductCst (VarExpr su) (START_UP_COSTS inp)).
Proof.
  unfold obj_term, getitem, price_at, cost_at.
  destruct (PRICE inp !! t); cbn; [|done].
  destruct (PROD_COSTS inp !! t); cbn; [|done].
  destruct (getvar (production h) t); cbn; [|done].
  destruct (getvar (start_up h) t); cbn; [|done].
  intros [= <-]. eauto.
Qed.

Lemma objective_convertible inp h T es :
  comprehension (obj_term inp h) T = Returned es ->
  convertible (SumArray es) = true
  <-> forall t, t ∈ T ->
        fits_double (price_at inp t - cost_at inp t) = true
        /\ fits_double (START_UP_COSTS inp) = true.
Proof.
  revert es. induction T as [|t T IH]; intros es; cbn [comprehension].
  - intros [= <-]. split; [|done]. intros _ t Ht. by apply elem_of_nil in Ht.
  - destruct (obj_term inp h t) as [e|] eqn:He; cbn; [|done].
    destruct (comprehension (obj_term inp h) T) as [es'|]; cbn; [|done].
    intros [= <-]. destruct (obj_term_shape inp h t e He) as (pr & su & ->).
    specialize (IH es' eq_refl). cbn [convertible] in IH.
    cbn [convertible forallb]. rewrite !andb_true_iff, IH. split.
    + intros [[[H1 _] [H2 _]] Hall] x [-> | Hx]%elem_of_cons; auto.
    + intros Hall. destruct (Hall t) as [H1 H2]; [apply list_elem_of_here|].
      split_and!; try done. intros x Hx. apply Hall.
      by apply list_elem_of_further.
Qed.

(** A build that completes converted every number it handed to the
    solver. *)
Lemma build_returned_representable inp s h s' :
  build_cells inp s = (Returned h, s') -> representable inp.
Proof.
  rewrite build_cells_run. cbv zeta. intros H t Ht.
  rewrite (max_output_fits_elem inp t Ht), (min_output_fits_elem inp t Ht) in H.
  destruct (fits_double (PROD_MAX inp)); [|done].
  destruct (comprehension _ (times inp)) as [es|] eqn:Hc; [|done].
  destruct (convertible (SumArray es)) eqn:Fobj; [|done].
  destruct (fits_double (PROD_MIN inp)); [|done].
  destruct (proj1 (objective_convertible _ _ _ _ Hc) Fobj t Ht). done.
Qed.

Lemma representable_fits inp :
  representable inp ->
  max_output_fits inp = true /\ min_output_fits inp = true.
Proof.
  unfold max_output_fits, min_output_fits. intros Hrep.
  destruct (times inp) as [|t T] eqn:HT; [done|].
  destruct (Hrep t) as (? & ? & _); [rewrite HT; apply list_elem_of_here|done].
Qed.

Lemma elem_of_tail {A} (l : list A) x : x ∈ tail l -> x ∈ l.
Proof. destruct l; cbn; [done|]. apply list_elem_of_further. Qed.

Lemma handle_Returned ix base T t :
  t ∈ T -> exists x, handle ix base T t = Returned x.
Proof. intros [k Hk]%last_pos_elem. unfold handle. rewrite Hk. eauto. Qed.

Lemma handle_Raised ix base T t :
  t ∉ T -> handle ix base T t = Raised (KeyError t).
Proof. intros Hk%last_pos_None. unfold handle. by rewrite Hk. Qed.

Lemma obj_term_made inp base T t :
  t ∈ T ->
  (exists e, obj_term inp (made_handles base T) t = Returned e)
  <-> is_Some (PRICE inp !! t) /\ is_Some (PROD_COSTS inp !! t).
Proof.
  intros Ht. destruct (made_handles_getvar base T t) as (_ & Hsu & _ & Hpr).
  cbn zeta in Hsu, Hpr.
  destruct (handle_Returned su_ix base T t Ht) as [su Hsu'].
  destruct (handle_Returned pr_ix base T t Ht) as [pr Hpr'].
  unfold obj_term, getitem. rewrite Hsu, Hpr, Hsu', Hpr'.
  destruct (PRICE inp !! t), (PROD_COSTS inp !! t); cbn;
    (split; [intros [e He] | intros [[? ?] [? ?]]]); eauto; done.
Qed.

Lemma objective_cell_made inp base T :
  (exists es, comprehension (obj_term inp (made_handles base T)) T = Returned es)
  <-> forall t, t ∈ T ->
        is_Some (PRICE inp !! t) /\ is_Some (PROD_COSTS inp !! t).
Proof.
  rewrite comprehension_Returned. split; intros H t Ht.
  - apply (obj_term_made inp base T t Ht), H, Ht.
  - apply (obj_term_made inp base T t Ht), H, Ht.
Qed.

Lemma transition_made base T t :
  t ∈ T ->
  ((t - 1)%Z ∈ T -> exists c, transition (made_handles base T) t = Returned c)
  /\ ((t - 1)%Z ∉ T ->
      transition (made_handles base T) t = Raised (KeyError (t - 1))).
Proof.
  intros Ht. destruct (made_handles_getvar base T t) as (Hop & Hsu & Hsd & _).
  destruct (made_handles_getvar base T (t - 1)) as (Hprev & _).
  cbn zeta in *.
  destruct (handle_Returned op_ix base T t Ht) as [op Hop'].
  destruct (handle_Returned su_ix base T t Ht) as [su Hsu'].
  destruct (handle_Returned sd_ix base T t Ht) as [sd Hsd'].
  unfold transition. rewrite Hop, Hprev, Hsu, Hsd, Hop', Hsu', Hsd'. split.
  - intros Hp. destruct (handle_Returned op_ix base T _ Hp) as [prev ->].
    cbn. eauto.
  - intros Hp. by rewrite (handle_Raised op_ix base T _ Hp).
Qed.

Lemma transitions_made base T :
  (exists cs, comprehension (transition (made_handles base T)) (tail T)
              = Returned cs)
  <-> forall t, t ∈ tail T -> (t - 1)%Z ∈ T.
Proof.
  rewrite comprehension_Returned. split; intros H t Ht.
  - destruct (transition_made base T t (elem_of_tail _ _ Ht)) as [_ Hno].
    destruct (decide ((t - 1)%Z ∈ T)) as [|Hnot]; [done|].
    destruct (H t Ht) as [c Hc]. rewrite (Hno Hnot) in Hc. done.
  - destruct (transition_made base T t (elem_of_tail _ _ Ht)) as [Hyes _].
    apply Hyes, H, Ht.
Qed.

Lemma first_period_made base T :
  (1%Z ∈ T -> exists c, first_period (made_handles base T) = Returned c)
  /\ (1%Z ∉ T -> first_period (made_handles base T) = Raised (KeyError 1)).
Proof.
  destruct (made_handles_getvar base T 1) as (Hop & Hsu & _). cbn zeta in *.
  unfold first_period. rewrite Hop, Hsu. split; intros H1.
  - destruct (handle_Returned op_ix base T _ H1) as [op ->].
    destruct (handle_Returned su_ix base T _ H1) as [su ->]. cbn. eauto.
  - by rewrite (handle_Raised op_ix base T _ H1).
Qed.

Lemma limits_at_length inp base T (l : list Z) :
  (forall t, t ∈ l -> t ∈ T) ->
  length (l ≫= limits_at inp base T) = (2 * length l)%nat.
Proof.
  induction l as [|t l IH]; intros Hsub; [done|].
  change ((t :: l) ≫= limits_at inp base T)
    with (limits_at inp base T t ++ (l ≫= limits_at inp base T)).
  rewrite length_app, IH.
  - destruct (proj1 (last_pos_elem T t)) as [k Hk].
    { apply Hsub, list_elem_of_here. }
    unfold limits_at. rewrite Hk. cbn [length]. lia.
  - intros x Hx. apply Hsub. by apply list_elem_of_further.
Qed.

Lemma tail_length {A} (l : list A) : length (tail l) = (length l - 1)%nat.
Proof. destruct l; cbn; lia. Qed.

(** The build cells when every number converts: only dictionary reads can
    raise. *)
Lemma build_cells_representable_run inp s :
  representable inp ->
  let T := times inp in
  let base := length (variables s) in
  let h := made_handles base T in
  let s1 := add_vars (T ≫= period_vars inp) s in
  build_cells inp s
  = match comprehension (obj_term inp h) T with
    | Raised e => (Raised e, s1)
    | Returned es =>
        let s3 := add_constraints (T ≫= limits_at inp base T)
                    (with_objective (SumArray es) s1) in
        match comprehension (transition h) (tail T) with
        | Raised e =>
            (Raised e, add_constraints (collect (transition h) (tail T)) s3)
        | Returned cs =>
            match first_period h with
            | Raised e => (Raised e, add_constraints cs s3)
            | Returned c => (Returned h, add_constraints (cs ++ [c]) s3)
            end
        end
    end.
Proof.
  intros Hrep. cbv zeta. rewrite build_cells_run. cbv zeta.
  destruct (representable_fits inp Hrep) as [-> ->].
  destruct (comprehension _ (times inp)) as [es|e] eqn:Hes; [|done].
  rewrite (proj2 (objective_convertible _ _ _ _ Hes)); [done|].
  intros t Ht. by destruct (Hrep t Ht) as (_ & _ & ? & ?).
Qed.

(** A build that completed ran every cell to its end. *)
Lemma build_cells_Returned inp s h s' :
  build_cells inp s = (Returned h, s') ->
  let T := times inp in
  let base := length (variables s) in
  exists es cs c,
    comprehension (obj_term inp h) T = Returned es
    /\ comprehension (transition h) (tail T) = Returned cs
    /\ first_period h = Returned c
    /\ h = made_handles base T
    /\ s' = add_constraints (cs ++ [c])
              (add_constraints (T ≫= limits_at inp base T)
                 (with_objective (SumArray es)
                    (add_vars (T ≫= period_vars inp) s))).
Proof.
  rewrite build_cells_run. cbv zeta.
  destruct (max_output_fits inp); [|done].
  destruct (comprehension _ (times inp)) as [es|e] eqn:Hes; [|done].
  destruct (convertible (SumArray es)); [|done].
  destruct (min_output_fits inp); [|done].
  destruct (comprehension _ (tail (times inp))) as [cs|e] eqn:Hcs; [|done].
  destruct (first_period _) as [c|e] eqn:Hfp; [|done].
  intros [= <- <-]. eauto 10.
Qed.

(** An objective that does not convert has a margin or the start-up cost
    outside the range of a double. *)
Lemma objective_not_convertible inp h T es :
  comprehension (obj_term inp h) T = Returned es ->
  convertible (SumArray es) = false ->
  exists t, t ∈ T
            /\ (fits_double (price_at inp t - cost_at inp t) = false
                \/ fits_double (START_UP_COSTS inp) = false).
Proof.
  revert es. induction T as [|t T IH]; intros es; cbn [comprehension].
  - by intros [= <-].
  - destruct (obj_term inp h t) as [e|] eqn:He; cbn; [|done].
    destruct (comprehension (obj_term inp h) T) as [es'|]; cbn; [|done].
    intros [= <-]. destruct (obj_term_shape inp h t e He) as (pr & su & ->).
    cbn [convertible forallb].
    destruct (fits_double (price_at inp t - cost_at inp t)) eqn:F1.
    2:{ intros _. exists t. split; [apply list_elem_of_here | by left]. }
    destruct (fits_double (START_UP_COSTS inp)) eqn:F2.
    2:{ intros _. exists t. split; [apply list_elem_of_here | by right]. }
    cbn [andb]. intros Hrest.
    destruct (IH es' eq_refl Hrest) as (x & Hx & Hbad).
    exists x. split; [by apply list_elem_of_further | done].
Qed.

(** ** Expressions: extensionality *)

(** The value of an expression depends only on the variables written in
    it. *)
Lemma eval_ext (a a' : Assignment) (e : LinearExpr) :
  (forall v, mentions v e = true -> a v == a' v) -> eval a e == eval a' e.
Proof.
  induction e as [v|e c IH|x y IHx IHy|x y IHx IHy|es IH]
    using LinearExpr_nested_ind; intros Hv; cbn [eval].
  - apply Hv. cbn. apply Nat.eqb_refl.
  - rewrite IH; [reflexivity|]. intros v Hm. by apply Hv.
  - rewrite IHx, IHy; [reflexivity| |]; intros v Hm; apply Hv; cbn;
      rewrite Hm; [apply orb_true_r | done].
  - rewrite IHx, IHy; [reflexivity| |]; intros v Hm; apply Hv; cbn;
      rewrite Hm; [apply orb_true_r | done].
  - induction IH as [|x l Hx _ IHl]; cbn; [reflexivity|].
    rewrite Hx, IHl; [reflexivity| |].
    + intros v Hm. apply Hv. cbn in *. rewrite Hm. apply orb_true_r.
    + intros v Hm. apply Hv. cbn. by rewrite Hm.
Qed.

(** A variable that is not written in an expression has coefficient 0. *)
Lemma coeff_unmentioned (v : VarIndex) (e : LinearExpr) :
  mentions v e = false -> coeff v e == 0.
Proof.
  induction e as [w|e c IH|x y IHx IHy|x y IHx IHy|es IH]
    using LinearExpr_nested_ind; cbn [mentions coeff]; intros Hm.
  - rewrite Hm. reflexivity.
  - rewrite IH by done. lra.
  - apply orb_false_elim in Hm as [Hx Hy]. rewrite IHx, IHy by done. lra.
  - apply orb_false_elim in Hm as [Hx Hy]. rewrite IHx, IHy by done. lra.
  - induction IH as [|x l Hx _ IHl]; cbn in *; [reflexivity|].
    apply orb_false_elim in Hm as [Hx' Hl]. rewrite Hx, IHl by done. lra.
Qed.

Lemma holds_ext (a a' : Assignment) (c : LinearConstraint) :
  (forall v, constraint_mentions v c = true -> a v == a' v) ->
  holds a c <-> holds a' c.
Proof.
  intros Hv.
  assert (forall l r, (forall v, mentions v l || mentions v r = true -> a v == a' v) ->
            eval a l == eval a' l /\ eval a r == eval a' r) as Hlr.
  { intros l r H. split; apply eval_ext; intros v Hm; apply H; rewrite Hm;
      [done | apply orb_true_r]. }
  destruct c as [l r|l r]; cbn in *; destruct (Hlr l r Hv) as [-> ->]; done.
Qed.

(** ** Domains *)

Lemma binary_domain x name : in_domain x (mkVar 0 1 true name) <-> binary x.
Proof.
  unfold in_domain, binary, integral; cbn. split.
  - intros (H0 & H1 & Hint). destruct (Hint eq_refl) as [z Hz].
    rewrite Hz in H0, H1 |- *.
    change 0 with (inject_Z 0) in *. change 1 with (inject_Z 1) in *.
    rewrite <- Zle_Qle in H0, H1. rewrite !inject_Z_injective. lia.
  - intros [H|H]; (repeat split; [lra | lra | intros _]);
      [exists 0%Z | exists 1%Z]; exact H.
Qed.

Lemma continuous_domain x ub name :
  in_domain x (mkVar 0 ub false name) <-> 0 <= x /\ x <= ub.
Proof. unfold in_domain; cbn. intuition discriminate. Qed.

(** ** Feasibility of the built model, by variable index *)

Lemma period_vars_lookup inp T k t j :
  T !! k = Some t -> (j < 4)%nat ->
  (T ≫= period_vars inp) !! (4 * k + j)%nat = period_vars inp t !! j.
Proof.
  revert k. induction T as [|x T IH]; intros k Hk Hj; [done|].
  destruct k as [|k]; cbn in Hk.
  - injection Hk as ->. rewrite Nat.mul_0_r, Nat.add_0_l.
    change ((t :: T) ≫= period_vars inp)
      with (period_vars inp t ++ (T ≫= period_vars inp)).
    by rewrite lookup_app_l by (cbn; lia).
  - change ((x :: T) ≫= period_vars inp)
      with (period_vars inp x ++ (T ≫= period_vars inp)).
    rewrite lookup_app_r by (cbn; lia). cbn [length period_vars].
    replace (4 * S k + j - 4)%nat with (4 * k + j)%nat by lia. by apply IH.
Qed.

Lemma period_vars_lookup_inv inp T i d :
  (T ≫= period_vars inp) !! i = Some d ->
  exists k t j, T !! k = Some t /\ (j < 4)%nat /\ i = (4 * k + j)%nat
                /\ period_vars inp t !! j = Some d.
Proof.
  revert i. induction T as [|x T IH]; intros i Hi; [done|].
  change ((x :: T) ≫= period_vars inp)
    with (period_vars inp x ++ (T ≫= period_vars inp)) in Hi.
  destruct (decide (i < 4)%nat) as [Hlt|Hge].
  - rewrite lookup_app_l in Hi by (cbn; lia).
    exists 0%nat, x, i. split_and!; [done | lia | lia | done].
  - rewrite lookup_app_r in Hi by (cbn; lia). cbn [length period_vars] in Hi.
    destruct (IH _ Hi) as (k & t & j & Hk & Hj & Heq & Hd).
    exists (S k), t, j. split_and!; [done | done | lia | done].
Qed.

Lemma elem_of_limit_constraints inp base n c :
  c ∈ limit_constraints inp base n <->
  exists k, (k < n)%nat
            /\ (c = min_constraint inp base k \/ c = max_constraint inp base k).
Proof.
  unfold limit_constraints. rewrite list_elem_of_bind.
  setoid_rewrite elem_of_seq.
  setoid_rewrite elem_of_cons. setoid_rewrite list_elem_of_singleton.
  split; intros (k & H1 & H2); exists k; (split; [first [done | lia]|]);
    first [done | lia].
Qed.

Lemma elem_of_commitment_constraints base n c :
  c ∈ commitment_constraints base n <->
  (exists k, (S k < n)%nat /\ c = transition_constraint base k)
  \/ c = first_constraint base.
Proof.
  unfold commitment_constraints.
  rewrite elem_of_app, list_elem_of_fmap, list_elem_of_singleton. split.
  - intros [(k & -> & Hk) | ->]; [left|by right].
    exists k. split; [|done]. apply elem_of_seq in Hk. lia.
  - intros [(k & Hk & ->)| ->]; [left|by right].
    exists k. split; [done|]. apply elem_of_seq. lia.
Qed.

Lemma feasible_built inp n s0 a :
  (0 < n)%nat ->
  feasible (built_solver inp n s0) a
  <-> feasible s0 a /\ block_ok inp (length (variables s0)) n a.
Proof.
  intros Hn. set (base := length (variables s0)).
  assert (Hvar : forall k j, (k < n)%nat -> (j < 4)%nat ->
            variables (built_solver inp n s0) !! (base + 4 * k + j)%nat
            = period_vars inp (period k) !! j).
  { intros k j Hk Hj. cbn [built_solver variables].
    rewrite lookup_app_r by (fold base; lia). fold base.
    replace (base + 4 * k + j - base)%nat with (4 * k + j)%nat by lia.
    apply period_vars_lookup; [|done]. by apply horizon_lookup. }
  unfold feasible. split.
  - intros [Hdom Hcs]. split; [split|].
    + intros v d Hv. apply Hdom. cbn. by apply lookup_app_l_Some.
    + intros c Hc. apply Hcs. cbn. apply elem_of_app. by left.
    + assert (Hc : forall c, c ∈ limit_constraints inp base n
                             ++ commitment_constraints base n -> holds a c).
      { intros c Hc. apply Hcs. cbn. fold base. apply elem_of_app. by right. }
      split; [|split].
      * intros k Hk. unfold period_ok.
        pose proof (Hdom _ _ (Hvar k 0%nat Hk ltac:(lia))) as H0.
        pose proof (Hdom _ _ (Hvar k 1%nat Hk ltac:(lia))) as H1.
        pose proof (Hdom _ _ (Hvar k 2%nat Hk ltac:(lia))) as H2.
        pose proof (Hdom _ _ (Hvar k 3%nat Hk ltac:(lia))) as H3.
        rewrite Nat.add_0_r in H0.
        apply binary_domain in H0, H1, H2. apply continuous_domain in H3.
        assert (Hmin : holds a (min_constraint inp base k)).
        { apply Hc, elem_of_app. left. apply elem_of_limit_constraints. eauto. }
        assert (Hmax : holds a (max_constraint inp base k)).
        { apply Hc, elem_of_app. left. apply elem_of_limit_constraints. eauto. }
        cbn in Hmin, Hmax. unfold op_ix, su_ix, sd_ix, pr_ix. tauto.
      * intros k Hk.
        assert (Ht : holds a (transition_constraint base k)).
        { apply Hc, elem_of_app. right.
          apply elem_of_commitment_constraints. eauto. }
        exact Ht.
      * assert (Hf : holds a (first_constraint base)).
        { apply Hc, elem_of_app. right.
          apply elem_of_commitment_constraints. by right. }
        exact Hf.
  - intros [[Hdom0 Hcs0] (Hper & Htr & Hfirst)]. split.
    + intros v d Hv. cbn in Hv. apply lookup_app_Some in Hv as [Hv|[Hge Hv]].
      { by apply Hdom0. }
      apply period_vars_lookup_inv in Hv as (k & t & j & Hk & Hj & Hi & Hd).
      apply horizon_lookup in Hk as [-> Hk].
      replace v with (base + 4 * k + j)%nat by (unfold base; lia).
      destruct (Hper k Hk) as (H0 & H1 & H2 & H3 & H4 & _).
      unfold op_ix, su_ix, sd_ix, pr_ix in *.
      destruct j as [|[|[|[|j]]]]; [| | | |lia];
        cbn in Hd; injection Hd as <-.
      * rewrite Nat.add_0_r. by apply binary_domain.
      * by apply binary_domain.
      * by apply binary_domain.
      * by apply continuous_domain.
    + intros c Hc. cbn in Hc. fold base in Hc.
      apply elem_of_app in Hc as [Hc|Hc]; [by apply Hcs0|].
      apply elem_of_app in Hc as [Hc|Hc].
      * apply elem_of_limit_constraints in Hc as (k & Hk & [-> | ->]);
          destruct (Hper k Hk) as (_ & _ & _ & _ & _ & Hmin & Hmax); done.
      * apply elem_of_commitment_constraints in Hc as [(k & Hk & ->)| ->].
        -- by apply Htr.
        -- done.
Qed.

(** ** Schedules and the mathematical programme *)

Lemma schedule_built a base n k :
  (k < n)%nat ->
  let σ := schedule a (built_handles base n) in
  u_t σ (period k) = a (op_ix base k) /\ v_t σ (period k) = a (su_ix base k)
  /\ w_t σ (period k) = a (sd_ix base k) /\ p_t σ (period k) = a (pr_ix base k).
Proof.
  intros Hk. destruct (built_handles_lookup base n k Hk) as (H1 & H2 & H3 & H4).
  cbn. unfold solution_value, read_value. by rewrite H1, H2, H3, H4.
Qed.

Lemma block_ok_schedule inp base n a :
  times inp = horizon n -> (0 < n)%nat ->
  block_ok inp base n a
  <-> unit_commitment inp (schedule a (built_handles base n)).
Proof.
  intros HT Hn. unfold unit_commitment. rewrite HT. split.
  - intros (Hper & Htr & Hfirst) t Ht.
    apply list_elem_of_lookup in Ht as [k [-> Hk]%horizon_lookup].
    destruct (schedule_built a base n k Hk) as (-> & -> & -> & ->).
    destruct (Hper k Hk) as (H0 & H1 & H2 & H3 & H4 & H5 & H6).
    split_and!; try done.
    + intros Hne. destruct k as [|k]; [done|].
      replace (period (S k) - 1)%Z with (period k) by (unfold period; lia).
      destruct (schedule_built a base n k ltac:(lia)) as (-> & _).
      by apply Htr.
    + intros Heq. destruct k as [|k]; [done|]. unfold period in Heq. lia.
  - intros Hm.
    assert (Hin : forall k, (k < n)%nat -> period k ∈ horizon n).
    { intros k Hk. apply list_elem_of_lookup. exists k. by apply horizon_lookup. }
    split_and!.
    + intros k Hk. specialize (Hm _ (Hin k Hk)).
      destruct (schedule_built a base n k Hk) as (Hu & Hv & Hw & Hp).
      rewrite Hu, Hv, Hw, Hp in Hm. unfold period_ok. tauto.
    + intros k Hk. specialize (Hm _ (Hin (S k) Hk)).
      destruct Hm as (_ & _ & _ & _ & _ & _ & _ & Htr & _).
      replace (period (S k) - 1)%Z with (period k) in Htr
        by (unfold period; lia).
      destruct (schedule_built a base n (S k) Hk) as (Hu & Hv & Hw & _).
      destruct (schedule_built a base n k ltac:(lia)) as (Hu' & _).
      rewrite Hu, Hv, Hw, Hu' in Htr. apply Htr. unfold period. lia.
    + specialize (Hm _ (Hin 0%nat Hn)).
      destruct Hm as (_ & _ & _ & _ & _ & _ & _ & _ & Hf).
      destruct (schedule_built a base n 0%nat Hn) as (Hu & Hv & _).
      rewrite Hu, Hv in Hf. by apply Hf.
Qed.

Lemma horizon_fmap n : horizon n = period <$> seq 0 n.
Proof.
  unfold horizon, seqZ. rewrite Nat2Z.id. apply list_fmap_ext.
  intros _ k _. unfold period. lia.
Qed.

Lemma objective_profit inp n s0 a :
  times inp = horizon n ->
  objective_at (built_solver inp n s0) a
  == profit inp (schedule a (built_handles (length (variables s0)) n)).
Proof.
  intros HT. set (base := length (variables s0)).
  unfold objective_at, objective_expr, profit. cbn [built_solver objective].
  fold base. rewrite HT, horizon_fmap. unfold model_objective. cbn [eval].
  assert (Hks : Forall (fun k => (k < n)%nat) (seq 0 n)).
  { apply Forall_forall. intros k Hk%elem_of_seq. lia. }
  induction Hks as [|k ks Hk _ IH]; [reflexivity|].
  rewrite !fmap_cons. cbn [fold_right]. rewrite IH.
  destruct (schedule_built a base n k Hk) as (_ & Hv & _ & Hp).
  rewrite Hv, Hp. cbn. lra.
Qed.

(** ** The model of a valid input *)

Lemma valid_covered inp : valid_input inp -> covered inp.
Proof.
  intros Hv t Ht. split; [by apply valid_prices|].
  destruct (valid_costs inp Hv t Ht) as (c & -> & _). eauto.
Qed.

Lemma feasible_CreateSolver a : feasible CreateSolver a.
Proof. split; [intros v d Hv | intros c Hc]; cbn in *; [done|]. inversion Hc. Qed.

(** For a valid input the notebook runs without exception and leaves the
    solver in the closed form [built_solver]. *)
Theorem buildModel_valid inp :
  valid_input inp -> representable inp ->
  buildModel inp
  = (Returned (built_handles 0 (length (times inp))),
     built_solver inp (length (times inp)) CreateSolver).
Proof.
  intros Hv Hrep. unfold buildModel.
  apply (build_cells_closed inp (length (times inp)) CreateSolver).
  - apply Hv.
  - apply Hv.
  - by apply valid_covered.
  - done.
Qed.

(** A completed build of a valid input is the closed form. *)
Lemma built_model inp h s :
  valid_input inp -> buildModel inp = (Returned h, s) ->
  h = built_handles 0 (length (times inp))
  /\ s = built_solver inp (length (times inp)) CreateSolver.
Proof.
  intros Hv Hb. pose proof (build_returned_representable _ _ _ _ Hb) as Hrep.
  rewrite (buildModel_valid inp Hv Hrep) in Hb. by injection Hb as <- <-.
Qed.

(** Feasible assignments of the built model are exactly the schedules of
    the mathematical programme. *)
Theorem feasible_iff_unit_commitment inp h s a :
  valid_input inp -> buildModel inp = (Returned h, s) ->
  feasible s a <-> unit_commitment inp (schedule a h).
Proof.
  intros Hv Hb. destruct (built_model inp h s Hv Hb) as [-> ->].
  rewrite feasible_built by apply Hv. cbn [CreateSolver variables length].
  rewrite <- block_ok_schedule by apply Hv.
  pose proof (feasible_CreateSolver a). tauto.
Qed.

Theorem objective_is_profit inp h s a :
  valid_input inp -> buildModel inp = (Returned h, s) ->
  objective_at s a == profit inp (schedule a h).
Proof.
  intros Hv Hb. destruct (built_model inp h s Hv Hb) as [-> ->].
  apply (objective_profit inp _ CreateSolver a), Hv.
Qed.

(** Every read through a dictionary of a built model succeeds. *)
Lemma built_reads inp h s a t :
  valid_input inp -> buildModel inp = (Returned h, s) -> t ∈ times inp ->
  let σ := schedule a h in
  read_value a (production h) t = Returned (p_t σ t)
  /\ read_value a (operating h) t = Returned (u_t σ t)
  /\ read_value a (start_up h) t = Returned (v_t σ t)
  /\ read_value a (shut_down h) t = Returned (w_t σ t).
Proof.
  intros Hv Hb Ht. destruct (built_model inp h s Hv Hb) as [-> ->].
  rewrite (valid_horizon inp Hv) in Ht.
  apply list_elem_of_lookup in Ht as [k [-> Hk]%horizon_lookup].
  destruct (built_handles_lookup 0 _ k Hk) as (H1 & H2 & H3 & H4).
  cbn. unfold solution_value, read_value. by rewrite H1, H2, H3, H4.
Qed.

(** ** The worked example *)

Lemma example_valid : valid_input example.
Proof.
  assert (Hin : forall t, t ∈ times example -> t = 1%Z \/ t = 2%Z \/ t = 3%Z).
  { intros t Ht. cbn in Ht. rewrite !elem_of_cons, elem_of_nil in Ht. tauto. }
  split; try (cbn; lra).
  - reflexivity.
  - cbn. lia.
  - intros t [-> | [-> | ->]]%Hin; exists 120; (split; [reflexivity | lra]).
  - intros t [-> | [-> | ->]]%Hin; eexists; reflexivity.
Qed.

Lemma example_representable : representable example.
Proof. apply representableb_sound. vm_compute. reflexivity. Qed.

Lemma example_built :
  buildModel example = (Returned example_handles, example_solver).
Proof. exact (buildModel_valid example example_valid example_representable). Qed.

(** The model of the worked example, written out. *)
Example example_model :
  buildModel example
  = (Returned example_handles,
     {| variables :=
          [ mkVar 0 1 true "operating_1"; mkVar 0 1 true "start_up_1";
            mkVar 0 1 true "shut_down_1"; mkVar 0 100 false "production_1";
            mkVar 0 1 true "operating_2"; mkVar 0 1 true "start_up_2";
            mkVar 0 1 true "shut_down_2"; mkVar 0 100 false "production_2";
            mkVar 0 1 true "operating_3"; mkVar 0 1 true "start_up_3";
            mkVar 0 1 true "shut_down_3"; mkVar 0 100 false "production_3" ];
        constraints :=
          [ LeC (ProductCst (VarExpr 0) 10) (VarExpr 3);
            LeC (VarExpr 3) (ProductCst (VarExpr 0) 100);
            LeC (ProductCst (VarExpr 4) 10) (VarExpr 7);
            LeC (VarExpr 7) (ProductCst (VarExpr 4) 100);
            LeC (ProductCst (VarExpr 8) 10) (VarExpr 11);
            LeC (VarExpr 11) (ProductCst (VarExpr 8) 100);
            EqC (VarExpr 4)
                (DiffExpr (SumExpr (VarExpr 0) (VarExpr 5)) (VarExpr 6));
            EqC (VarExpr 8)
                (DiffExpr (SumExpr (VarExpr 4) (VarExpr 9)) (VarExpr 10));
            EqC (VarExpr 0) (VarExpr 1) ];
        objective :=
          Some (Maximization,
                SumArray
                  [ DiffExpr (ProductCst (VarExpr 3) 80)
                             (ProductCst (VarExpr 1) 10);
                    DiffExpr (ProductCst (VarExpr 7) (-20))
                             (ProductCst (VarExpr 5) 10);
                    DiffExpr (ProductCst (VarExpr 11) 80)
                             (ProductCst (VarExpr 9) 10) ]) |}).
Proof. vm_compute. reflexivity. Qed.

(** The dictionaries of the worked example. *)
Example example_dictionaries :
  map_to_list (operating example_handles)
  ≡ₚ [(1%Z, Some 0%nat); (2%Z, Some 4%nat); (3%Z, Some 8%nat)]
  /\ map_to_list (start_up example_handles)
     ≡ₚ [(1%Z, Some 1%nat); (2%Z, Some 5%nat); (3%Z, Some 9%nat)]
  /\ map_to_list (shut_down example_handles)
     ≡ₚ [(1%Z, Some 2%nat); (2%Z, Some 6%nat); (3%Z, Some 10%nat)]
  /\ map_to_list (production example_handles)
     ≡ₚ [(1%Z, Some 3%nat); (2%Z, Some 7%nat); (3%Z, Some 11%nat)].
Proof.
  split_and!; vm_compute;
    (etransitivity; [apply Permutation_rev|reflexivity]).
Qed.

(** Running the build cells once more on the solver of the worked example
    leaves it with twice the variables and constraints. *)
Example example_rebuild :
  let s2 := (build_cells example example_solver).2 in
  length (variables s2) = 24%nat /\ length (constraints s2) = 18%nat.
Proof. vm_compute. done. Qed.

Lemma example_profit σ :
  profit example σ
  == 80 * p_t σ 1 - 10 * v_t σ 1 - 20 * p_t σ 2 - 10 * v_t σ 2
     + 80 * p_t σ 3 - 10 * v_t σ 3.
Proof.
  unfold profit. cbn [times example fold_right].
  change (price_at example 1) with 200. change (price_at example 2) with 100.
  change (price_at example 3) with 200. change (cost_at example 1) with 120.
  change (cost_at example 2) with 120. change (cost_at example 3) with 120.
  change (START_UP_COSTS example) with 10. lra.
Qed.

Lemma binary_bounds x : binary x -> 0 <= x /\ x <= 1.
Proof. intros [H|H]; rewrite H; lra. Qed.

(** The constraints of the example, on the values of a schedule. *)
Lemma example_constraints σ :
  unit_commitment example σ ->
  (binary (u_t σ 1) /\ binary (u_t σ 2) /\ binary (u_t σ 3))
  /\ (binary (v_t σ 1) /\ binary (v_t σ 2) /\ binary (v_t σ 3))
  /\ (binary (w_t σ 1) /\ binary (w_t σ 2) /\ binary (w_t σ 3))
  /\ (u_t σ 1 * 10 <= p_t σ 1 /\ p_t σ 1 <= u_t σ 1 * 100)
  /\ (u_t σ 2 * 10 <= p_t σ 2 /\ p_t σ 2 <= u_t σ 2 * 100)
  /\ (u_t σ 3 * 10 <= p_t σ 3 /\ p_t σ 3 <= u_t σ 3 * 100)
  /\ u_t σ 1 == v_t σ 1
  /\ u_t σ 2 == u_t σ 1 + v_t σ 2 - w_t σ 2
  /\ u_t σ 3 == u_t σ 2 + v_t σ 3 - w_t σ 3.
Proof.
  intros H.
  assert (H1 : (1:Z) ∈ times example) by (cbn; rewrite !elem_of_cons; tauto).
  assert (H2 : (2:Z) ∈ times example) by (cbn; rewrite !elem_of_cons; tauto).
  assert (H3 : (3:Z) ∈ times example) by (cbn; rewrite !elem_of_cons; tauto).
  destruct (H _ H1) as (? & ? & ? & _ & _ & ? & ? & _ & E1).
  destruct (H _ H2) as (? & ? & ? & _ & _ & ? & ? & E2 & _).
  destruct (H _ H3) as (? & ? & ? & _ & _ & ? & ? & E3 & _).
  specialize (E1 eq_refl). specialize (E2 ltac:(done)).
  specialize (E3 ltac:(done)).
  change (2 - 1)%Z with 1%Z in E2. change (3 - 1)%Z with 2%Z in E3.
  cbn [PROD_MIN PROD_MAX example] in *. tauto.
Qed.

(** No schedule of the example earns more than 15980. *)
Lemma example_upper_bound σ :
  unit_commitment example σ -> profit example σ <= 15980.
Proof.
  intros (([U1|U1] & [U2|U2] & [U3|U3]) & (V1 & V2 & V3) & (_ & W2 & W3)
          & (? & ?) & (? & ?) & (? & ?) & E1 & E2 & E3)%example_constraints;
    rewrite example_profit; rewrite U1, U2, U3 in *;
    apply binary_bounds in V1, V2, V3, W2, W3; lra.
Qed.


(** ** The executable feasibility check is sound *)

Lemma integralb_sound x : integralb x = true -> integral x.
Proof. unfold integralb. intros H%Qeq_bool_iff. by exists (Qfloor x). Qed.

Lemma in_domainb_sound x d : in_domainb x d = true -> in_domain x d.
Proof.
  unfold in_domainb, in_domain.
  intros [[H1%Qle_bool_iff H2%Qle_bool_iff]%andb_prop Hi]%andb_prop.
  split_and!; [done | done |]. intros Hint. rewrite Hint in Hi.
  by apply integralb_sound.
Qed.

Lemma holdsb_sound a c : holdsb a c = true -> holds a c.
Proof.
  destruct c as [l r|l r]; cbn; [apply Qle_bool_iff | apply Qeq_bool_iff].
Qed.

Lemma feasibleb_sound s a : feasibleb s a = true -> feasible s a.
Proof.
  unfold feasibleb, feasible. intros [Hd Hc]%andb_prop. split.
  - intros x d Hx. rewrite forallb_forall in Hd.
    apply (in_domainb_sound (a x) d), (Hd (x, d)).
    apply list_elem_of_In, list_elem_of_lookup. exists x.
    rewrite list_lookup_imap.
    exact (f_equal (fmap (fun d0 => (x, d0))) Hx).
  - intros c Hc'. rewrite forallb_forall in Hc.
    apply holdsb_sound, Hc. by apply list_elem_of_In.
Qed.

(** ** The reporting cells on a built model *)

Lemma comprehension_total {A B} (f : A -> Outcome B) (g : A -> B) xs :
  (forall x, x ∈ xs -> f x = Returned (g x)) ->
  comprehension f xs = Returned (g <$> xs).
Proof.
  induction xs as [|x xs IH]; intros Hf; [done|].
  cbn. rewrite (Hf x) by apply list_elem_of_here. cbn.
  rewrite IH; [done|]. intros y Hy. apply Hf. by apply list_elem_of_further.
Qed.

Lemma report_built inp h s r :
  valid_input inp -> buildModel inp = (Returned h, s) ->
  let σ := schedule (values r) h in
  report inp h r
  = Returned {| printed_objective := match status r with
                                     | OPTIMAL => Some (objective_value r)
                                     | _ => None
                                     end;
                printed_production := p_t σ <$> times inp;
                printed_operating := u_t σ <$> times inp;
                printed_start_up := v_t σ <$> times inp;
                printed_shut_down := w_t σ <$> times inp |}.
Proof.
  intros Hv Hb σ. unfold report.
  assert (Hr := fun t Ht => built_reads inp h s (values r) t Hv Hb Ht).
  cbn zeta in Hr. fold σ in Hr.
  rewrite (comprehension_total (read_value (values r) (production h)) (p_t σ))
    by (intros t Ht; apply (Hr t Ht)).
  rewrite (comprehension_total (read_value (values r) (operating h)) (u_t σ))
    by (intros t Ht; apply (Hr t Ht)).
  rewrite (comprehension_total (read_value (values r) (start_up h)) (v_t σ))
    by (intros t Ht; apply (Hr t Ht)).
  rewrite (comprehension_total (read_value (values r) (shut_down h)) (w_t σ))
    by (intros t Ht; apply (Hr t Ht)).
  reflexivity.
Qed.

(** ** Optimal results of the worked example *)

Lemma printed_solution_optimal : solver_contract example_solver printed_solution.
Proof.
  assert (Hobj : objective_at example_solver (values printed_solution) == 15980)
    by (vm_compute; reflexivity).
  split; [split|].
  - apply feasibleb_sound. vm_compute. reflexivity.
  - intros a' Ha'. rewrite Hobj.
    rewrite (objective_is_profit example _ _ a' example_valid example_built).
    apply example_upper_bound.
    by apply (feasible_iff_unit_commitment example _ _ a' example_valid
                example_built).
  - cbn [objective_value printed_solution]. by rewrite Hobj.
Qed.

(** ** Which variables the built model writes where *)

Ltac ix_neq :=
  unfold min_constraint, max_constraint, transition_constraint,
    first_constraint, op_ix, su_ix, sd_ix, pr_ix in *;
  cbn [constraint_mentions mentions List.filter];
  repeat match goal with
         | |- context [Nat.eqb ?x ?y] => destruct (Nat.eqb_spec x y); try lia
         end;
  cbn [orb]; try done.

Lemma contract_feasible s r :
  solver_contract s r -> has_solution r -> feasible s (values r).
Proof.
  unfold solver_contract. intros Hc [Hs|Hs]; rewrite Hs in Hc.
  - apply Hc.
  - apply Hc.
Qed.

Lemma objective_mentions inp base n x :
  mentions x (model_objective inp base n) = true ->
  exists k, (k < n)%nat /\ (x = pr_ix base k \/ x = su_ix base k).
Proof.
  unfold model_objective. cbn [mentions]. intros H.
  apply existsb_exists in H as (e & He & Hm).
  apply list_elem_of_In, list_elem_of_fmap in He as (k & -> & Hk).
  apply elem_of_seq in Hk. exists k. split; [lia|].
  cbn in Hm. apply orb_prop in Hm as [Hm|Hm]; apply Nat.eqb_eq in Hm; auto.
Qed.

Lemma filter_bind_nil {A B} (P : B -> bool) (f : A -> list B) l :
  (forall j, j ∈ l -> List.filter P (f j) = []) ->
  List.filter P (l ≫= f) = [].
Proof.
  induction l as [|j l IH]; intros Hl; [done|].
  change ((j :: l) ≫= f) with (f j ++ (l ≫= f)).
  rewrite List.filter_app, Hl, IH; [done| |apply list_elem_of_here].
  intros i Hi. apply Hl. by apply list_elem_of_further.
Qed.

Lemma filter_bind_single {A B} (P : B -> bool) (f : A -> list B) ks k :
  NoDup ks -> k ∈ ks ->
  (forall j, j ∈ ks -> j <> k -> List.filter P (f j) = []) ->
  List.filter P (f k) = f k ->
  List.filter P (ks ≫= f) = f k.
Proof.
  intros Hnd Hk Hother Hself.
  induction Hnd as [|j l Hj Hnd IH]; [by apply elem_of_nil in Hk|].
  change ((j :: l) ≫= f) with (f j ++ (l ≫= f)). rewrite List.filter_app.
  apply elem_of_cons in Hk as [<- | Hk].
  - rewrite Hself, filter_bind_nil; [by rewrite app_nil_r|].
    intros i Hi. apply Hother; [by apply list_elem_of_further|].
    intros ->. done.
  - rewrite Hother, IH; [done | done | | apply list_elem_of_here |].
    + intros i Hi Hne. apply Hother; [|done]. by apply list_elem_of_further.
    + intros ->. done.
Qed.

Lemma production_constraints inp base n k :
  (k < n)%nat ->
  List.filter (constraint_mentions (pr_ix base k))
    (limit_constraints inp base n ++ commitment_constraints base n)
  = [min_constraint inp base k; max_constraint inp base k].
Proof.
  intros Hk. rewrite List.filter_app.
  assert (List.filter (constraint_mentions (pr_ix base k))
            (commitment_constraints base n) = []) as ->.
  { unfold commitment_constraints. rewrite List.filter_app.
    assert (List.filter (constraint_mentions (pr_ix base k))
              (transition_constraint base <$> seq 0 (n - 1)) = []) as ->.
    { induction (seq 0 (n - 1)) as [|j l IH]; [done|].
      rewrite fmap_cons. cbn [List.filter]. rewrite IH.
      ix_neq. }
    ix_neq. }
  rewrite app_nil_r. unfold limit_constraints.
  apply (filter_bind_single _
           (fun j => [min_constraint inp base j; max_constraint inp base j])).
  - apply NoDup_seq.
  - apply elem_of_seq. lia.
  - intros j _ Hne. ix_neq.
  - ix_neq.
Qed.

(** ** The all-zero assignment *)

Lemma schedule_all_zero h t :
  let σ := schedule all_zero h in
  p_t σ t = 0 /\ u_t σ t = 0 /\ v_t σ t = 0 /\ w_t σ t = 0.
Proof.
  cbn. unfold solution_value, read_value, all_zero.
  destruct (production h !! t) as [[?|]|], (operating h !! t) as [[?|]|],
    (start_up h !! t) as [[?|]|], (shut_down h !! t) as [[?|]|]; done.
Qed.

Lemma profit_all_zero inp h : profit inp (schedule all_zero h) == 0.
Proof.
  unfold profit. induction (times inp) as [|t T IH]; [reflexivity|].
  cbn [fold_right]. rewrite IH.
  destruct (schedule_all_zero h t) as (-> & _ & -> & _). lra.
Qed.

Lemma all_zero_feasible inp h s :
  valid_input inp -> buildModel inp = (Returned h, s) -> feasible s all_zero.
Proof.
  intros Hv Hb.
  apply (feasible_iff_unit_commitment inp h s _ Hv Hb). intros t Ht.
  destruct (schedule_all_zero h t) as (-> & -> & -> & ->).
  destruct (schedule_all_zero h (t - 1)) as (_ & -> & _ & _).
  pose proof (valid_min inp Hv). pose proof (valid_max inp Hv).
  unfold binary. split_and!; try lra; try (left; reflexivity); intros _; lra.
Qed.

(** ** Overriding one variable *)

Lemma override_same a x b : override a x b x = b.
Proof. unfold override. by rewrite Nat.eqb_refl. Qed.

Lemma override_other a x b y : y <> x -> override a x b y = a y.
Proof. unfold override. intros H. by apply Nat.eqb_neq in H as ->. Qed.

(** Replacing the value of a binary variable that no constraint mentions
    keeps an assignment feasible, and keeps the objective value when the
    objective does not mention it either. *)
Lemma override_unmentioned s a x b name :
  variables s !! x = Some (mkVar 0 1 true name) ->
  (forall c, c ∈ constraints s -> constraint_mentions x c = false) ->
  mentions x (objective_expr s) = false ->
  feasible s a -> binary b ->
  feasible s (override a x b)
  /\ objective_at s (override a x b) == objective_at s a.
Proof.
  intros Hx Hcs Hobj [Hdom Hc] Hb. split; [split|].
  - intros y d Hy. destruct (decide (y = x)) as [->|Hne].
    + rewrite override_same. rewrite Hx in Hy. injection Hy as <-.
      by apply binary_domain.
    + rewrite override_other by done. by apply Hdom.
  - intros c Hin. apply (holds_ext (override a x b) a); [|by apply Hc].
    intros y Hy. rewrite override_other; [reflexivity|].
    intros ->. rewrite (Hcs c Hin) in Hy. discriminate.
  - apply eval_ext. intros y Hy. rewrite override_other; [reflexivity|].
    intros ->. rewrite Hobj in Hy. discriminate.
Qed.

(** ** Which exceptions the cells can raise *)

Lemma mild_bind {A B} (o : Outcome A) (k : A -> Outcome B) :
  mild o -> (forall a, mild (k a)) -> mild (o ≫= k).
Proof. destruct o; cbn; auto. Qed.

Lemma mild_getitem d t : mild (getitem d t).
Proof. unfold getitem. by destruct (d !! t). Qed.

Lemma mild_getvar d t : mild (getvar d t).
Proof. unfold getvar. by destruct (d !! t) as [[?|]|]. Qed.

Lemma mild_read_value a d t : mild (read_value a d t).
Proof. unfold read_value. by destruct (d !! t) as [[?|]|]. Qed.

Lemma mild_comprehension {A B} (f : A -> Outcome B) xs :
  (forall x, mild (f x)) -> mild (comprehension f xs).
Proof.
  intros Hf. induction xs as [|x xs IH]; [done|].
  cbn [comprehension]. apply mild_bind; [done|]. intros y.
  apply mild_bind; [done|]. done.
Qed.

Lemma mild_cell_bind {A B} (m : Cell A) (k : A -> Cell B) :
  mild_cell m -> (forall a, mild_cell (k a)) -> mild_cell (m ≫= k).
Proof.
  intros Hm Hk s. rewrite bind_run. specialize (Hm s).
  destruct (m s) as [[a|e] s']; [apply Hk | done].
Qed.

Lemma mild_cell_lift {A} (o : Outcome A) : mild o -> mild_cell (lift o).
Proof. intros Ho s. done. Qed.

Lemma mild_cell_for_each {A St} (xs : list A) (body : A -> St -> Cell St) acc :
  (forall x st, mild_cell (body x st)) -> mild_cell (for_each xs body acc).
Proof.
  intros Hb. revert acc. induction xs as [|x xs IH]; intros acc; [done|].
  cbn [for_each]. apply mild_cell_bind; [apply Hb | apply IH].
Qed.

Lemma mild_MakeVar lb ub i name : mild_cell (MakeVar lb ub i name).
Proof. intros s. unfold MakeVar. by destruct (fits_double lb && fits_double ub). Qed.

Lemma mild_Add c : mild_cell (Add c).
Proof. intros s. unfold Add. by destruct (convertible_constraint c). Qed.

Lemma mild_Maximize e : mild_cell (Maximize e).
Proof. intros s. unfold Maximize. by destruct (convertible e). Qed.

Lemma mild_cell_ret {A} (a : A) : mild_cell (mret a).
Proof. intros s. done. Qed.

Lemma mild_build_cells inp : mild_cell (build_cells inp).
Proof.
  unfold build_cells. apply mild_cell_bind.
  { apply mild_cell_for_each. intros t h. unfold register_period.
    repeat (apply mild_cell_bind; [apply mild_MakeVar|intros ?]).
    apply mild_cell_ret. }
  intros h. apply mild_cell_bind.
  { unfold set_objective. apply mild_cell_bind; [|intros ?; apply mild_Maximize].
    apply mild_cell_lift, mild_comprehension. intros t. unfold obj_term.
    repeat (apply mild_bind;
            [first [apply mild_getitem | apply mild_getvar]|intros ?]).
    done. }
  intros _. apply mild_cell_bind.
  { apply mild_cell_for_each. intros t [] . unfold add_limits.
    apply mild_cell_bind.
    { apply mild_cell_lift. unfold min_limit.
      repeat (apply mild_bind; [apply mild_getvar|intros ?]). done. }
    intros c1. apply mild_cell_bind; [apply mild_Add|]. intros _.
    apply mild_cell_bind; [|intros ?; apply mild_Add].
    apply mild_cell_lift. unfold max_limit.
    repeat (apply mild_bind; [apply mild_getvar|intros ?]). done. }
  intros _. apply mild_cell_bind; [|intros ?; apply mild_cell_ret].
  unfold add_commitment_logic. apply mild_cell_bind.
  { apply mild_cell_for_each. intros t []. unfold add_transition.
    apply mild_cell_bind; [|intros ?; apply mild_Add].
    apply mild_cell_lift. unfold transition.
    repeat (apply mild_bind; [apply mild_getvar|intros ?]). done. }
  intros _. apply mild_cell_bind; [|intros ?; apply mild_Add].
  apply mild_cell_lift. unfold first_period.
  repeat (apply mild_bind; [apply mild_getvar|intros ?]). done.
Qed.

Lemma mild_report inp h r : mild (report inp h r).
Proof.
  unfold report.
  repeat (apply mild_bind;
          [apply mild_comprehension; intros ?; apply mild_read_value|intros ?]).
  done.
Qed.

Lemma comprehension_raises {A B} (f : A -> Outcome B) xs x e :
  x ∈ xs -> f x = Raised e ->
  exists y e', y ∈ xs /\ f y = Raised e' /\ comprehension f xs = Raised e'.
Proof.
  induction xs as [|z xs IH]; intros Hx Hfx; [by apply elem_of_nil in Hx|].
  cbn [comprehension]. destruct (f z) as [b|e'] eqn:Hz.
  - apply elem_of_cons in Hx as [-> | Hx]; [congruence|].
    destruct (IH Hx Hfx) as (y & e' & Hy & Hfy & Hc).
    exists y, e'. split_and!; [by apply list_elem_of_further | done |].
    cbn. by rewrite Hc.
  - exists z, e'. split_and!; [apply list_elem_of_here | done | done].
Qed.

Lemma obj_term_raises inp h t pr su e :
  production h !! t = Some (Some pr) -> start_up h !! t = Some (Some su) ->
  obj_term inp h t = Raised e -> e = KeyError t.
Proof.
  intros Hpr Hsu. unfold obj_term, getitem, getvar. rewrite Hpr, Hsu.
  destruct (PRICE inp !! t), (PROD_COSTS inp !! t); cbn;
    unfold mret, Outcome_ret; congruence.
Qed.

Lemma obj_term_missing inp h t :
  PRICE inp !! t = None \/ PROD_COSTS inp !! t = None ->
  obj_term inp h t = Raised (KeyError t).
Proof.
  unfold obj_term, getitem. intros [-> | ->]; [done|].
  by destruct (PRICE inp !! t).
Qed.

(** ** Running the build cells again on the same solver object *)







Lemma period_vars_length inp T :
  length (T ≫= period_vars inp) = (4 * length T)%nat.
Proof.
  induction T as [|t T IH]; [done|].
  change ((t :: T) ≫= period_vars inp)
    with (period_vars inp t ++ (T ≫= period_vars inp)).
  rewrite length_app, IH. cbn [length period_vars]. lia.
Qed.



Lemma doubled_built :
  build_cells example example_solver = (Returned doubled_handles, doubled_solver).
Proof.
  apply (build_cells_closed example 3 example_solver).
  - reflexivity.
  - lia.
  - exact (valid_covered example example_valid).
  - exact example_representable.
Qed.

(** * The claims *)



(** C2.  For every valid input the objective registered with the solver is
    a maximisation whose value at every assignment equals the sum over the
    horizon of (marketPrice[t] - variableCost[t]) * production[t]
    - startUpCost * startUp[t]; no shut-down variable is written in it, so
    each has coefficient 0. *)
Theorem C2_objective_formula inp h s :
  valid_input inp -> buildModel inp = (Returned h, s) ->
  (exists e, objective s = Some (Maximization, e))
  /\ (forall a, objective_at s a == profit inp (schedule a h))
  /\ (forall t, t ∈ times inp ->
        exists x, shut_down h !! t = Some (Some x)
                  /\ mentions x (objective_expr s) = false
                  /\ coeff x (objective_expr s) == 0).
Proof.
  intros Hv Hb. split_and!.
  - destruct (built_model inp h s Hv Hb) as [-> ->].
    cbn. eauto.
  - intros a. by apply objective_is_profit.
  - intros t Ht. destruct (built_model inp h s Hv Hb) as [-> ->].
    rewrite (valid_horizon inp Hv) in Ht.
    apply list_elem_of_lookup in Ht as [k [-> Hk]%horizon_lookup].
    destruct (built_handles_lookup 0 _ k Hk) as (_ & _ & Hsd & _).
    exists (sd_ix 0 k). split; [done|].
    assert (Hm : mentions (sd_ix 0 k)
                   (objective_expr (built_solver inp (length (times inp))
                                      CreateSolver)) = false).
    { apply not_true_is_false. intros Hm. cbn in Hm.
      apply objective_mentions in Hm as (j & _ & [Hj|Hj]);
        unfold sd_ix, pr_ix, su_ix in Hj; lia. }
    split; [done|]. by apply coeff_unmentioned.
Qed.

Lemma C2_objective_formula_witness :
  (exists e, objective example_solver = Some (Maximization, e))
  /\ (forall a, objective_at example_solver a
                == profit example (schedule a example_handles))
  /\ (forall t, t ∈ times example ->
        exists x, shut_down example_handles !! t = Some (Some x)
                  /\ mentions x (objective_expr example_solver) = false
                  /\ coeff x (objective_expr example_solver) == 0).
Proof.
  apply (C2_objective_formula example example_handles example_solver).
  - exact example_valid.
  - exact example_built.
Defined.

(** C3.  For every valid input and every time index t of the horizon the
    solver holds the continuous variable production[t] with bounds 0 and
    maxOutput, and the constraints that mention it are exactly
    operating[t] * minOutput <= production[t] and
    production[t] <= operating[t] * maxOutput, in this order. *)
Theorem C3_production_bounds inp h s :
  valid_input inp -> buildModel inp = (Returned h, s) ->
  forall t, t ∈ times inp ->
    exists pr op,
      production h !! t = Some (Some pr)
      /\ operating h !! t = Some (Some op)
      /\ variables s !! pr
         = Some (mkVar 0 (PROD_MAX inp) false ("production_" +:+ pretty t))
      /\ List.filter (constraint_mentions pr) (constraints s)
         = [ LeC (ProductCst (VarExpr op) (PROD_MIN inp)) (VarExpr pr);
             LeC (VarExpr pr) (ProductCst (VarExpr op) (PROD_MAX inp)) ].
Proof.
  intros Hv Hb t Ht. destruct (built_model inp h s Hv Hb) as [-> ->].
  rewrite (valid_horizon inp Hv) in Ht.
  apply list_elem_of_lookup in Ht as [k [-> Hk]%horizon_lookup].
  destruct (built_handles_lookup 0 _ k Hk) as (Hop & _ & _ & Hpr).
  exists (pr_ix 0 k), (op_ix 0 k). split_and!; [done | done | |].
  - cbn [built_solver variables CreateSolver app]. unfold pr_ix.
    rewrite Nat.add_0_l.
    rewrite (period_vars_lookup inp _ k (period k) 3); [done | | lia].
    by apply horizon_lookup.
  - cbn [built_solver constraints CreateSolver app length variables].
    by apply production_constraints.
Qed.

Lemma C3_production_bounds_witness :
  exists pr op,
    production example_handles !! 2%Z = Some (Some pr)
    /\ operating example_handles !! 2%Z = Some (Some op)
    /\ variables example_solver !! pr
       = Some (mkVar 0 (PROD_MAX example) false ("production_" +:+ pretty 2%Z))
    /\ List.filter (constraint_mentions pr) (constraints example_solver)
       = [ LeC (ProductCst (VarExpr op) (PROD_MIN example)) (VarExpr pr);
           LeC (VarExpr pr) (ProductCst (VarExpr op) (PROD_MAX example)) ].
Proof.
  apply (C3_production_bounds example example_handles example_solver).
  - exact example_valid.
  - exact example_built.
  - cbn. rewrite !elem_of_cons. tauto.
Defined.

(** C4.  In every result reported as Optimal or Feasible for the model of a
    valid input, the values read back satisfy
    operating[t] = operating[t-1] + startUp[t] - shutDown[t] for every index
    t of the horizon after the first, and operating[1] = startUp[1]. *)
Theorem C4_commitment_logic inp h s r :
  valid_input inp -> buildModel inp = (Returned h, s) ->
  solver_contract s r -> has_solution r ->
  (forall t, t ∈ times inp -> t <> 1%Z ->
     exists u u' v w,
       read_value (values r) (operating h) t = Returned u
       /\ read_value (values r) (operating h) (t - 1) = Returned u'
       /\ read_value (values r) (start_up h) t = Returned v
       /\ read_value (values r) (shut_down h) t = Returned w
       /\ u == u' + v - w)
  /\ (exists u v,
        read_value (values r) (operating h) 1 = Returned u
        /\ read_value (values r) (start_up h) 1 = Returned v
        /\ u == v).
Proof.
  intros Hv Hb Hc Hs. pose proof (contract_feasible s r Hc Hs) as Hf.
  apply (feasible_iff_unit_commitment inp h s _ Hv Hb) in Hf.
  assert (Hin : forall t, t ∈ times inp <-> (1 <= t <= Z.of_nat (length (times inp)))%Z).
  { intros t. rewrite (valid_horizon inp Hv) at 1. apply horizon_elem. }
  split.
  - intros t Ht Hne.
    assert (Ht' : (t - 1)%Z ∈ times inp) by (apply Hin; apply Hin in Ht; lia).
    destruct (built_reads inp h s (values r) t Hv Hb Ht) as (_ & Hu & Hsu & Hsd).
    destruct (built_reads inp h s (values r) _ Hv Hb Ht') as (_ & Hu' & _).
    destruct (Hf t Ht) as (_ & _ & _ & _ & _ & _ & _ & Heq & _).
    eauto 10.
  - assert (H1 : 1%Z ∈ times inp).
    { apply Hin. pose proof (valid_nonempty inp Hv). lia. }
    destruct (built_reads inp h s (values r) 1%Z Hv Hb H1) as (_ & Hu & Hsu & _).
    destruct (Hf 1%Z H1) as (_ & _ & _ & _ & _ & _ & _ & _ & Heq).
    eauto 10.
Qed.

Lemma C4_commitment_logic_witness :
  (forall t, t ∈ times example -> t <> 1%Z ->
     exists u u' v w,
       read_value (values printed_solution) (operating example_handles) t
       = Returned u
       /\ read_value (values printed_solution) (operating example_handles)
            (t - 1) = Returned u'
       /\ read_value (values printed_solution) (start_up example_handles) t
          = Returned v
       /\ read_value (values printed_solution) (shut_down example_handles) t
          = Returned w
       /\ u == u' + v - w)
  /\ (exists u v,
        read_value (values printed_solution) (operating example_handles) 1
        = Returned u
        /\ read_value (values printed_solution) (start_up example_handles) 1
           = Returned v
        /\ u == v).
Proof.
  apply (C4_commitment_logic example example_handles example_solver
           printed_solution).
  - exact example_valid.
  - exact example_built.
  - exact printed_solution_optimal.
  - left. reflexivity.
Defined.

(** C5.  In every result reported as Optimal or Feasible for the model of a
    valid input, for every time index t of the horizon: if the value of
    operating[t] is 0 then the value of production[t] is 0. *)
Theorem C5_off_means_no_production inp h s r :
  valid_input inp -> buildModel inp = (Returned h, s) ->
  solver_contract s r -> has_solution r ->
  forall t, t ∈ times inp ->
    exists u p,
      read_value (values r) (operating h) t = Returned u
      /\ read_value (values r) (production h) t = Returned p
      /\ (u == 0 -> p == 0).
Proof.
  intros Hv Hb Hc Hs t Ht. pose proof (contract_feasible s r Hc Hs) as Hf.
  apply (feasible_iff_unit_commitment inp h s _ Hv Hb) in Hf.
  destruct (built_reads inp h s (values r) t Hv Hb Ht) as (Hp & Hu & _).
  destruct (Hf t Ht) as (_ & _ & _ & _ & _ & Hmin & Hmax & _).
  eexists _, _. split_and!; [exact Hu | exact Hp |].
  intros H0. rewrite H0 in Hmin, Hmax. lra.
Qed.

Lemma C5_off_means_no_production_witness :
  exists u p,
    read_value (values printed_solution) (operating example_handles) 2
    = Returned u
    /\ read_value (values printed_solution) (production example_handles) 2
       = Returned p
    /\ (u == 0 -> p == 0).
Proof.
  apply (C5_off_means_no_production example example_handles example_solver
           printed_solution).
  - exact example_valid.
  - exact example_built.
  - exact printed_solution_optimal.
  - left. reflexivity.
  - cbn. rewrite !elem_of_cons. tauto.
Defined.

(** C6, as amended.  The notebook validates no parameter: for no input does
    building the model fail with InvalidParameterError.  For a horizon
    (1..n), n >= 1, with a cost and a price for every index, and with output
    limits, start-up cost and margins that convert to a double, it builds
    the model without failure, whatever the order of minOutput and maxOutput
    is.  For an empty horizon it fails with KeyError(1), after the (empty)
    objective was set; when a cost or a price is missing for an index of the
    horizon and maxOutput converts to a double, it fails with KeyError of
    such an index, after all variables were registered with the solver. *)
Theorem C6_no_parameter_validation inp :
  let n := length (times inp) in
  (buildModel inp).1 <> Raised InvalidParameterError
  /\ (times inp = horizon n -> (0 < n)%nat -> covered inp ->
      representable inp ->
        exists h, (buildModel inp).1 = Returned h)
  /\ (times inp = [] ->
        buildModel inp
        = (Raised (KeyError 1),
           {| variables := []; constraints := [];
              objective := Some (Maximization, SumArray []) |}))
  /\ (times inp = horizon n -> fits_double (PROD_MAX inp) = true ->
      (exists t, t ∈ times inp
                 /\ (PRICE inp !! t = None \/ PROD_COSTS inp !! t = None)) ->
        exists t, t ∈ times inp
                  /\ (PRICE inp !! t = None \/ PROD_COSTS inp !! t = None)
                  /\ buildModel inp
                     = (Raised (KeyError t),
                        {| variables := times inp ≫= period_vars inp;
                           constraints := []; objective := None |})).
Proof.
  intros n. split_and!.
  - pose proof (mild_build_cells inp CreateSolver) as Hm.
    unfold buildModel. intros Heq. rewrite Heq in Hm. exact Hm.
  - intros HT Hn Hcov Hrep. unfold buildModel.
    rewrite (build_cells_closed inp n CreateSolver HT Hn Hcov Hrep). eauto.
  - intros HT. unfold buildModel. rewrite build_cells_run. cbv zeta.
    unfold max_output_fits, min_output_fits. rewrite HT. reflexivity.
  - intros HT Fmax (t & Ht & Hmiss).
    set (h := made_handles 0 (times inp)).
    assert (Hh : forall t', t' ∈ times inp ->
              exists pr su, production h !! t' = Some (Some pr)
                            /\ start_up h !! t' = Some (Some su)).
    { intros t' Ht'. unfold h. rewrite HT. rewrite HT in Ht'.
      apply list_elem_of_lookup in Ht' as [k [-> Hk]%horizon_lookup].
      destruct (built_handles_lookup 0 n k Hk) as (_ & ? & _ & ?). eauto. }
    destruct (comprehension_raises (obj_term inp h) (times inp) t _ Ht
                (obj_term_missing inp h t Hmiss)) as (y & e' & Hy & Hfy & Hc).
    destruct (Hh y Hy) as (pr & su & Hpr & Hsu).
    pose proof (obj_term_raises inp h y pr su e' Hpr Hsu Hfy) as ->.
    exists y. split_and!; [done | |].
    + unfold obj_term, getitem in Hfy.
      destruct (PRICE inp !! y); [|by left].
      destruct (PROD_COSTS inp !! y); [|by right].
      cbn in Hfy. unfold getvar in Hfy. rewrite Hpr, Hsu in Hfy. done.
    + unfold buildModel. rewrite build_cells_run. cbv zeta.
      rewrite (max_output_fits_elem inp t Ht), Fmax.
      cbn [CreateSolver variables length]. fold h. by rewrite Hc.
Qed.

Lemma C6_no_parameter_validation_witness :
  exists h, (buildModel inverted_example).1 = Returned h.
Proof.
  apply (C6_no_parameter_validation inverted_example).
  - reflexivity.
  - cbn. lia.
  - intros t Ht. apply (valid_covered example example_valid t Ht).
  - apply representableb_sound. vm_compute. reflexivity.
Defined.

(** C6, as stated, fails: with minOutput = 100 >= maxOutput = 10 the model
    is built without any failure, and with the price of period 2 missing the
    failure is KeyError(2), raised when the solver already holds the twelve
    variables. *)
Lemma C6_counterexample :
  (PROD_MAX inverted_example <= PROD_MIN inverted_example
   /\ exists h, (buildModel inverted_example).1 = Returned h)
  /\ (PRICE uncovered_example !! 2%Z = None
      /\ (buildModel uncovered_example).1 = Raised (KeyError 2)
      /\ length (variables (buildModel uncovered_example).2) = 12%nat).
Proof.
  split_and!.
  - cbn. lra.
  - eexists. vm_compute. reflexivity.
  - reflexivity.
  - vm_compute. reflexivity.
  - vm_compute. reflexivity.
Qed.

(** C7, as amended.  The reporting cells never fail with UnsolvedModelError.
    On the model of a valid input they do not fail at all: the objective
    value is reported exactly when the status is Optimal (not when it is
    Feasible), and the four per-period value lists are read from the solver
    whatever the status is. *)
Theorem C7_report_ignores_status inp h r :
  report inp h r <> Raised UnsolvedModelError
  /\ (forall s, valid_input inp -> buildModel inp = (Returned h, s) ->
        exists out,
          report inp h r = Returned out
          /\ (printed_objective out = Some (objective_value r)
              <-> status r = OPTIMAL)
          /\ (printed_objective out = None <-> status r <> OPTIMAL)
          /\ printed_production out = p_t (schedule (values r) h) <$> times inp
          /\ printed_operating out = u_t (schedule (values r) h) <$> times inp
          /\ printed_start_up out = v_t (schedule (values r) h) <$> times inp
          /\ printed_shut_down out = w_t (schedule (values r) h) <$> times inp).
Proof.
  split.
  - intros Heq. pose proof (mild_report inp h r) as Hm.
    rewrite Heq in Hm. exact Hm.
  - intros s Hv Hb. rewrite (report_built inp h s r Hv Hb).
    eexists. split; [reflexivity|]. cbn.
    destruct (status r); split_and!; try done; split; congruence.
Qed.

Lemma C7_report_ignores_status_witness :
  exists out,
    report example example_handles feasible_result = Returned out
    /\ (printed_objective out = Some (objective_value feasible_result)
        <-> status feasible_result = OPTIMAL)
    /\ (printed_objective out = None <-> status feasible_result <> OPTIMAL)
    /\ printed_production out
       = p_t (schedule (values feasible_result) example_handles)
         <$> times example
    /\ printed_operating out
       = u_t (schedule (values feasible_result) example_handles)
         <$> times example
    /\ printed_start_up out
       = v_t (schedule (values feasible_result) example_handles)
         <$> times example
    /\ printed_shut_down out
       = w_t (schedule (values feasible_result) example_handles)
         <$> times example.
Proof.
  apply (C7_report_ignores_status example example_handles feasible_result)
    with (s := example_solver).
  - exact example_valid.
  - exact example_built.
Defined.

(** C7, as stated, fails: for a result with status Infeasible the reporting
    cells do not fail but print a value for every period, and for a correct
    result with status Feasible they print no objective value. *)
Lemma C7_counterexample :
  buildModel example = (Returned example_handles, example_solver)
  /\ (status infeasible_result <> OPTIMAL /\ status infeasible_result <> FEASIBLE
   /\ report example example_handles infeasible_result
      = Returned {| printed_objective := None;
                    printed_production := [0; 0; 0];
                    printed_operating := [0; 0; 0];
                    printed_start_up := [0; 0; 0];
                    printed_shut_down := [0; 0; 0] |})
  /\ (solver_contract example_solver feasible_result
      /\ status feasible_result = FEASIBLE
      /\ exists out,
           report example example_handles feasible_result = Returned out
           /\ printed_objective out = None).
Proof.
  split; [exact example_built|]. split_and!; try done.
  - split.
    + apply feasibleb_sound. vm_compute. reflexivity.
    + vm_compute. reflexivity.
  - eexists. split; [vm_compute; reflexivity | reflexivity].
Qed.



(** C9.  For every valid input the assignment that sets every variable to 0
    satisfies all domains and constraints of the built model and has
    objective value 0; hence a correct solver never reports Infeasible for
    it, and every optimal assignment has objective value at least 0. *)
Theorem C9_all_zero_feasible inp h s :
  valid_input inp -> buildModel inp = (Returned h, s) ->
  feasible s all_zero
  /\ objective_at s all_zero == 0
  /\ (forall r, solver_contract s r -> status r <> INFEASIBLE)
  /\ (forall a, optimal s a -> 0 <= objective_at s a).
Proof.
  intros Hv Hb.
  pose proof (all_zero_feasible inp h s Hv Hb) as Hz.
  assert (Hobj : objective_at s all_zero == 0).
  { rewrite (objective_is_profit inp h s _ Hv Hb). apply profit_all_zero. }
  split_and!; [done | done | |].
  - intros r Hc Hs. unfold solver_contract in Hc. rewrite Hs in Hc.
    by apply (Hc all_zero).
  - intros a [_ Hopt]. rewrite <- Hobj. by apply Hopt.
Qed.

Lemma C9_all_zero_feasible_witness :
  feasible example_solver all_zero
  /\ objective_at example_solver all_zero == 0
  /\ (forall r, solver_contract example_solver r -> status r <> INFEASIBLE)
  /\ (forall a, optimal example_solver a -> 0 <= objective_at example_solver a).
Proof.
  apply (C9_all_zero_feasible example example_handles example_solver).
  - exact example_valid.
  - exact example_built.
Defined.

(** C10.  For every valid input, shutDown[1] is a binary variable that no
    constraint and not the objective mentions (coefficient 0); replacing its
    value by either binary value in a feasible assignment gives a feasible
    assignment with the same objective value, so every optimal assignment has
    an optimal twin with the other value of shutDown[1]. *)
Theorem C10_first_shut_down_free inp h s :
  valid_input inp -> buildModel inp = (Returned h, s) ->
  exists x,
    shut_down h !! 1%Z = Some (Some x)
    /\ variables s !! x = Some (mkVar 0 1 true ("shut_down_" +:+ pretty 1%Z))
    /\ (forall c, c ∈ constraints s -> constraint_mentions x c = false)
    /\ mentions x (objective_expr s) = false
    /\ coeff x (objective_expr s) == 0
    /\ (forall a b, feasible s a -> binary b ->
          feasible s (override a x b)
          /\ objective_at s (override a x b) == objective_at s a)
    /\ (forall a, optimal s a ->
          exists a', optimal s a' /\ ~ a' x == a x
                     /\ forall y, y <> x -> a' y = a y).
Proof.
  intros Hv Hb. destruct (built_model inp h s Hv Hb) as [-> ->].
  set (n := length (times inp)).
  pose proof (valid_nonempty inp Hv) as Hn. fold n in Hn.
  set (s := built_solver inp n CreateSolver). set (x := sd_ix 0 0).
  destruct (built_handles_lookup 0 n 0%nat Hn) as (_ & _ & Hsd & _).
  change (period 0) with 1%Z in Hsd.
  assert (Hx : variables s !! x = Some (mkVar 0 1 true ("shut_down_" +:+ pretty 1%Z))).
  { unfold s, x, sd_ix. cbn [built_solver variables CreateSolver app].
    change (0 + 4 * 0 + 2)%nat with (4 * 0 + 2)%nat.
    rewrite (period_vars_lookup inp _ 0%nat 1%Z 2); [done | | lia].
    by apply horizon_lookup. }
  assert (Hcs : forall c, c ∈ constraints s -> constraint_mentions x c = false).
  { intros c Hc. unfold s in Hc.
    cbn [built_solver constraints CreateSolver app length variables] in Hc.
    apply elem_of_app in Hc as [Hc|Hc].
    - apply elem_of_limit_constraints in Hc as (k & _ & [-> | ->]);
        unfold x; ix_neq.
    - apply elem_of_commitment_constraints in Hc as [(k & _ & ->)| ->];
        unfold x; ix_neq. }
  assert (Hobj : mentions x (objective_expr s) = false).
  { apply not_true_is_false. intros Hm. cbn in Hm.
    apply objective_mentions in Hm as (j & _ & [Hj|Hj]);
      unfold x, sd_ix, pr_ix, su_ix in Hj; lia. }
  exists x. split_and!; try done.
  - by apply coeff_unmentioned.
  - intros a b Ha Hbin. by apply (override_unmentioned s a x b _ Hx).
  - intros a [Hfeas Hopt].
    assert (Hbin : binary (a x)).
    { destruct Hfeas as [Hdom _].
      by apply (binary_domain _ ("shut_down_" +:+ pretty 1%Z)), (Hdom x). }
    assert (Hbin' : binary (1 - a x)).
    { destruct Hbin as [H|H]; [right|left]; rewrite H; lra. }
    destruct (override_unmentioned s a x _ _ Hx Hcs Hobj Hfeas Hbin')
      as [Hf' Ho'].
    exists (override a x (1 - a x)). split_and!.
    + split; [done|]. intros a' Ha'. rewrite Ho'. by apply Hopt.
    + rewrite override_same. destruct Hbin as [H|H]; rewrite H; lra.
    + intros y Hy. by apply override_other.
Qed.

Lemma C10_first_shut_down_free_witness :
  exists x,
    shut_down example_handles !! 1%Z = Some (Some x)
    /\ variables example_solver !! x
       = Some (mkVar 0 1 true ("shut_down_" +:+ pretty 1%Z))
    /\ (forall c, c ∈ constraints example_solver ->
          constraint_mentions x c = false)
    /\ mentions x (objective_expr example_solver) = false
    /\ coeff x (objective_expr example_solver) == 0
    /\ (forall a b, feasible example_solver a -> binary b ->
          feasible example_solver (override a x b)
          /\ objective_at example_solver (override a x b)
             == objective_at example_solver a)
    /\ (forall a, optimal example_solver a ->
          exists a', optimal example_solver a' /\ ~ a' x == a x
                     /\ forall y, y <> x -> a' y = a y).
Proof.
  apply (C10_first_shut_down_free example example_handles example_solver).
  - exact example_valid.
  - exact example_built.
Defined.

(** * Further properties of the notebook *)

(** ** Properties of the build cells *)

(** X1.  The cell "Variables", for every input and every solver state.
    When the horizon is empty or PROD_MAX converts to a double, the cell
    completes: it registers, in this order, the three binary variables
    operating, start_up, shut_down and the continuous variable production
    (bounds 0 and PROD_MAX) of every element of [times], and leaves the
    constraints and the objective as they were.  Otherwise it raises
    TypeError in its first pass, at [solver.NumVar], when the three binary
    variables of the first element are already registered. *)
Theorem variables_cell_registers inp s :
  (times inp = [] \/ fits_double (PROD_MAX inp) = true ->
     exists h,
       make_variables inp s
       = (Returned h,
          {| variables := variables s ++ (times inp ≫= period_vars inp);
             constraints := constraints s;
             objective := objective s |})
       /\ length (times inp ≫= period_vars inp) = (4 * length (times inp))%nat)
  /\ (forall t T', times inp = t :: T' ->
        fits_double (PROD_MAX inp) = false ->
        make_variables inp s
        = (Raised TypeError,
           {| variables :=
                variables s
                ++ [ mkVar 0 1 true ("operating_" +:+ pretty t);
                     mkVar 0 1 true ("start_up_" +:+ pretty t);
                     mkVar 0 1 true ("shut_down_" +:+ pretty t) ];
              constraints := constraints s;
              objective := objective s |})).
Proof.
  rewrite make_variables_run. split.
  - intros Hok. replace (max_output_fits inp) with true.
    2:{ unfold max_output_fits. destruct (times inp); [done|].
        by destruct Hok. }
    eexists. split; [reflexivity | apply period_vars_length].
  - intros t T' HT Hfit. unfold max_output_fits. rewrite HT, Hfit.
    reflexivity.
Qed.

Lemma variables_cell_registers_witness :
  make_variables oversized_example CreateSolver
  = (Raised TypeError,
     {| variables :=
          variables CreateSolver
          ++ [ mkVar 0 1 true ("operating_" +:+ pretty 1%Z);
               mkVar 0 1 true ("start_up_" +:+ pretty 1%Z);
               mkVar 0 1 true ("shut_down_" +:+ pretty 1%Z) ];
        constraints := constraints CreateSolver;
        objective := objective CreateSolver |}).
Proof.
  destruct (variables_cell_registers oversized_example CreateSolver) as [_ H].
  apply (H 1%Z [2; 3]%Z).
  - reflexivity.
  - vm_compute. reflexivity.
Defined.

(** X2.  After the cell "Variables" the four dictionaries have exactly the
    elements of [times] as keys and hold a variable (never [None]) at each;
    the variable is the one created in the last pass of the loop for that
    key, so for a repeated time index the variables of the earlier passes
    stay in the solver without a dictionary entry. *)
Theorem dictionaries_hold_last_variables inp s h s' :
  make_variables inp s = (Returned h, s') ->
  forall t,
    (t ∉ times inp ->
       operating h !! t = None /\ start_up h !! t = None
       /\ shut_down h !! t = None /\ production h !! t = None)
    /\ (forall k, times inp !! k = Some t -> t ∉ drop (S k) (times inp) ->
          let base := (length (variables s) + 4 * k)%nat in
          operating h !! t = Some (Some base)
          /\ start_up h !! t = Some (Some (base + 1)%nat)
          /\ shut_down h !! t = Some (Some (base + 2)%nat)
          /\ production h !! t = Some (Some (base + 3)%nat)
          /\ variables s' !! (base + 3)%nat
             = Some (mkVar 0 (PROD_MAX inp) false ("production_" +:+ pretty t))).
Proof.
  rewrite make_variables_run. destruct (max_output_fits inp); [|done].
  intros [= <- <-] t. unfold made_handles.
  destruct (assign_handles_last (length (variables s)) (times inp)
              {| production := fromkeys (times inp);
                 operating := fromkeys (times inp);
                 start_up := fromkeys (times inp);
                 shut_down := fromkeys (times inp) |} t)
    as (Hop & Hsu & Hsd & Hpr). cbn zeta in *. split.
  - intros Hnot. pose proof (proj2 (last_pos_None _ _) Hnot) as Hl.
    rewrite Hl in Hop, Hsu, Hsd, Hpr. cbn in Hop, Hsu, Hsd, Hpr.
    rewrite fromkeys_lookup, decide_False in Hop, Hsu, Hsd, Hpr by done. done.
  - intros k Hk Hlast.
    pose proof (proj2 (last_pos_Some _ _ _) (conj Hk Hlast)) as Hl.
    rewrite Hl in Hop, Hsu, Hsd, Hpr.
    unfold op_ix, su_ix, sd_ix, pr_ix in *. split_and!; try done.
    cbn [add_vars variables]. rewrite lookup_app_r by lia.
    replace (length (variables s) + 4 * k + 3 - length (variables s))%nat
      with (4 * k + 3)%nat by lia.
    by rewrite (period_vars_lookup inp _ k t 3) by (done || lia).
Qed.

Lemma dictionaries_hold_last_variables_witness :
  let h := made_handles 0 [1; 2; 2]%Z in
  (2%Z ∉ times repeated_example ->
     operating h !! 2%Z = None /\ start_up h !! 2%Z = None
     /\ shut_down h !! 2%Z = None /\ production h !! 2%Z = None)
  /\ (forall k, times repeated_example !! k = Some 2%Z ->
        2%Z ∉ drop (S k) (times repeated_example) ->
        let base := (length (variables CreateSolver) + 4 * k)%nat in
        operating h !! 2%Z = Some (Some base)
        /\ start_up h !! 2%Z = Some (Some (base + 1)%nat)
        /\ shut_down h !! 2%Z = Some (Some (base + 2)%nat)
        /\ production h !! 2%Z = Some (Some (base + 3)%nat)
        /\ variables (make_variables repeated_example CreateSolver).2
           !! (base + 3)%nat
           = Some (mkVar 0 (PROD_MAX repeated_example) false
                     ("production_" +:+ pretty 2%Z))).
Proof.
  apply (dictionaries_hold_last_variables repeated_example CreateSolver
           (made_handles 0 [1; 2; 2]%Z)
           (make_variables repeated_example CreateSolver).2).
  vm_compute. reflexivity.
Defined.

(** A repeated time index: the dictionaries point at the variables of the
    last pass (indices 8 to 11), those of the second pass (4 to 7) are
    orphaned. *)
Example repeated_dictionaries :
  let h := (made_handles 0 (times repeated_example)) in
  operating h !! 2%Z = Some (Some 8%nat)
  /\ production h !! 2%Z = Some (Some 11%nat)
  /\ length (variables (make_variables repeated_example CreateSolver).2)
     = 12%nat.
Proof. vm_compute. done. Qed.

(** X3.  For every input and every solver state the build cells complete
    without exception exactly when every element of [times] has a price and a
    cost, every element of [times[1:]] has its predecessor [t - 1] in
    [times], [times] contains the index 1, and the two output limits, the
    start-up cost and every margin convert to a double. *)
Theorem build_succeeds_iff inp s :
  (exists h, (build_cells inp s).1 = Returned h)
  <-> covered inp
      /\ (forall t, t ∈ tail (times inp) -> (t - 1)%Z ∈ times inp)
      /\ 1%Z ∈ times inp
      /\ representable inp.
Proof.
  set (base := length (variables s)). set (T := times inp).
  pose proof (objective_cell_made inp base T) as Hobj.
  pose proof (transitions_made base T) as Htr.
  destruct (first_period_made base T) as [Hf1 Hf0].
  unfold covered. fold T. split.
  - intros [h Hh]. destruct (build_cells inp s) as [o s'] eqn:Hb.
    cbn in Hh. subst o.
    pose proof (build_returned_representable _ _ _ _ Hb) as Hrep.
    destruct (build_cells_Returned _ _ _ _ Hb)
      as (es & cs & c & Hes & Hcs & Hfp & -> & _).
    fold base T in Hes, Hcs, Hfp.
    split_and!; [apply Hobj; eauto | apply Htr; eauto | | done].
    destruct (decide (1%Z ∈ T)) as [|Hnot]; [done|].
    rewrite (Hf0 Hnot) in Hfp. done.
  - intros (Hc & Hp & H1 & Hrep).
    rewrite (build_cells_representable_run inp s Hrep). cbv zeta.
    fold base T.
    destruct (proj2 Hobj Hc) as [es ->]. destruct (proj2 Htr Hp) as [cs ->].
    destruct (Hf1 H1) as [c ->]. cbn. eauto.
Qed.

(** A horizon given out of order is accepted: the predecessor of a period is
    looked up by key, not by position. *)
Example shuffled_builds :
  exists h, (build_cells shuffled_example CreateSolver).1 = Returned h.
Proof. eexists. vm_compute. reflexivity. Qed.

(** X4.  The exceptions the build cells raise, for every input and every
    solver state: KeyError of an element of [times] that has no price or no
    cost, of the predecessor [t - 1] of an element [t] of [times[1:]] when
    [t - 1] is not in [times], or of the index 1 when it is not in [times];
    TypeError when the horizon is not empty and PROD_MAX does not convert to
    a double; OverflowError when the horizon is not empty and PROD_MIN, the
    start-up cost or a margin does not convert to a double. *)
Theorem build_exceptions inp s e :
  (build_cells inp s).1 = Raised e ->
  (exists t, t ∈ times inp /\ e = KeyError t
             /\ (PRICE inp !! t = None \/ PROD_COSTS inp !! t = None))
  \/ (exists t, t ∈ tail (times inp) /\ ((t - 1)%Z ∉ times inp)
                /\ e = KeyError (t - 1))
  \/ ((1%Z ∉ times inp) /\ e = KeyError 1)
  \/ (e = TypeError /\ times inp <> []
      /\ fits_double (PROD_MAX inp) = false)
  \/ (e = OverflowError
      /\ exists t, t ∈ times inp
                   /\ (fits_double (PROD_MIN inp) = false
                       \/ fits_double (START_UP_COSTS inp) = false
                       \/ fits_double (price_at inp t - cost_at inp t) = false)).
Proof.
  rewrite build_cells_run. cbv zeta.
  set (base := length (variables s)). set (T := times inp).
  destruct (max_output_fits inp) eqn:Fmax.
  2:{ intros [= <-]. do 3 right. left. unfold max_output_fits in Fmax.
      fold T in Fmax. by destruct T. }
  destruct (comprehension (obj_term inp (made_handles base T)) T)
    as [es|e1] eqn:Hobj.
  - destruct (convertible (SumArray es)) eqn:Fobj.
    2:{ intros [= <-]. do 4 right. split; [done|].
        destruct (objective_not_convertible _ _ _ _ Hobj Fobj)
          as (t & Ht & [Hbad|Hbad]); exists t; auto. }
    destruct (min_output_fits inp) eqn:Fmin.
    2:{ intros [= <-]. do 4 right. split; [done|].
        unfold min_output_fits in Fmin. fold T in Fmin.
        destruct T as [|t T'] eqn:HT; [done|].
        exists t. split; [apply list_elem_of_here | by left]. }
    destruct (comprehension (transition (made_handles base T)) (tail T))
      as [cs|e2] eqn:Htr.
    + destruct (first_period_made base T) as [Hf1 Hf0].
      destruct (decide (1%Z ∈ T)) as [H1|H1].
      * destruct (Hf1 H1) as [c ->]. done.
      * rewrite (Hf0 H1). intros [= <-]. right. right. left. done.
    + intros [= ->]. right. left.
      apply comprehension_Raised in Htr as (pre & t & post & Ht & _ & Hfail).
      assert (Hin : t ∈ tail T).
      { rewrite Ht. apply elem_of_app. right. apply list_elem_of_here. }
      destruct (transition_made base T t (elem_of_tail _ _ Hin)) as [Hyes Hno].
      destruct (decide ((t - 1)%Z ∈ T)) as [Hp|Hp].
      * destruct (Hyes Hp) as [c Hc]. congruence.
      * rewrite (Hno Hp) in Hfail. injection Hfail as <-. eauto.
  - intros [= ->]. left.
    apply comprehension_Raised in Hobj as (pre & t & post & Ht & _ & Hfail).
    assert (Hin : t ∈ T).
    { rewrite Ht. apply elem_of_app. right. apply list_elem_of_here. }
    exists t. split; [done|].
    destruct (PRICE inp !! t) as [p|] eqn:Hp, (PROD_COSTS inp !! t) as [c|] eqn:Hc.
    + destruct (proj2 (obj_term_made inp base T t Hin)) as [x Hx].
      { rewrite Hp, Hc. eauto. }
      congruence.
    + rewrite (obj_term_missing inp _ t) in Hfail by auto.
      injection Hfail as <-. auto.
    + rewrite (obj_term_missing inp _ t) in Hfail by auto.
      injection Hfail as <-. auto.
    + rewrite (obj_term_missing inp _ t) in Hfail by auto.
      injection Hfail as <-. auto.
Qed.

Lemma build_exceptions_witness :
  (exists t, t ∈ times gapped_example /\ KeyError 2 = KeyError t
             /\ (PRICE gapped_example !! t = None
                 \/ PROD_COSTS gapped_example !! t = None))
  \/ (exists t, t ∈ tail (times gapped_example)
                /\ ((t - 1)%Z ∉ times gapped_example)
                /\ KeyError 2 = KeyError (t - 1))
  \/ ((1%Z ∉ times gapped_example) /\ KeyError 2 = KeyError 1)
  \/ (KeyError 2 = TypeError /\ times gapped_example <> []
      /\ fits_double (PROD_MAX gapped_example) = false)
  \/ (KeyError 2 = OverflowError
      /\ exists t, t ∈ times gapped_example
                   /\ (fits_double (PROD_MIN gapped_example) = false
                       \/ fits_double (START_UP_COSTS gapped_example) = false
                       \/ fits_double (price_at gapped_example t
                                       - cost_at gapped_example t) = false)).
Proof.
  apply (build_exceptions gapped_example CreateSolver (KeyError 2)).
  vm_compute. reflexivity.
Defined.

(** X5.  When elements of [times] lack a price or a cost and PROD_MAX
    converts to a double, the build cells raise KeyError of the first such
    element; the solver then holds the new variables, but no new constraint,
    and its objective is unchanged. *)
Theorem first_missing_entry inp s pre t post :
  fits_double (PROD_MAX inp) = true ->
  times inp = pre ++ t :: post ->
  (forall z, z ∈ pre ->
     is_Some (PRICE inp !! z) /\ is_Some (PROD_COSTS inp !! z)) ->
  PRICE inp !! t = None \/ PROD_COSTS inp !! t = None ->
  build_cells inp s
  = (Raised (KeyError t),
     {| variables := variables s ++ (times inp ≫= period_vars inp);
        constraints := constraints s;
        objective := objective s |}).
Proof.
  intros Fmax HT Hpre Hmiss. rewrite build_cells_run. cbv zeta.
  assert (Hin : t ∈ times inp).
  { rewrite HT. apply elem_of_app. right. apply list_elem_of_here. }
  rewrite (max_output_fits_elem inp t Hin), Fmax.
  set (base := length (variables s)).
  rewrite HT at 2.
  rewrite (comprehension_first _ pre t post (KeyError t)); [done| |].
  - intros z Hz. apply obj_term_made; [|by apply Hpre].
    rewrite HT. apply elem_of_app. by left.
  - by apply obj_term_missing.
Qed.

Lemma first_missing_entry_witness :
  build_cells uncovered_example CreateSolver
  = (Raised (KeyError 2),
     {| variables := variables CreateSolver
                     ++ (times uncovered_example ≫= period_vars uncovered_example);
        constraints := constraints CreateSolver;
        objective := objective CreateSolver |}).
Proof.
  apply (first_missing_entry uncovered_example CreateSolver [1%Z] 2%Z [3%Z]).
  - vm_compute. reflexivity.
  - reflexivity.
  - intros z ->%list_elem_of_singleton. split; eexists; reflexivity.
  - left. reflexivity.
Defined.

(** X6.  The first-period constraint is written with the literal key 1: for
    a horizon without the index 1 (the empty horizon included) that is
    otherwise accepted, with numbers that convert to a double, the build
    cells raise KeyError(1) only at the very end, when the solver already
    holds all variables, the objective, the two limit constraints of every
    period and the transition constraints. *)
Theorem horizon_without_one inp s :
  covered inp -> representable inp ->
  (forall t, t ∈ tail (times inp) -> (t - 1)%Z ∈ times inp) ->
  1%Z ∉ times inp ->
  exists s',
    build_cells inp s = (Raised (KeyError 1), s')
    /\ variables s' = variables s ++ (times inp ≫= period_vars inp)
    /\ (exists e, objective s' = Some (Maximization, e))
    /\ length (constraints s')
       = (length (constraints s) + 2 * length (times inp)
          + (length (times inp) - 1))%nat.
Proof.
  intros Hc Hrep Hp H1.
  rewrite (build_cells_representable_run inp s Hrep). cbv zeta.
  set (base := length (variables s)). set (T := times inp).
  destruct (proj2 (objective_cell_made inp base T) Hc) as [es ->].
  destruct (proj2 (transitions_made base T) Hp) as [cs Hcs]. rewrite Hcs.
  destruct (first_period_made base T) as [_ Hf0]. rewrite (Hf0 H1).
  eexists. split; [reflexivity|]. cbn. split_and!; [done | eauto |].
  rewrite !length_app, (limits_at_length inp base T T) by done.
  rewrite (comprehension_length _ _ _ Hcs), tail_length. done.
Qed.

Lemma horizon_without_one_witness :
  exists s',
    build_cells late_example CreateSolver = (Raised (KeyError 1), s')
    /\ variables s'
       = variables CreateSolver ++ (times late_example ≫= period_vars late_example)
    /\ (exists e, objective s' = Some (Maximization, e))
    /\ length (constraints s')
       = (length (constraints CreateSolver) + 2 * length (times late_example)
          + (length (times late_example) - 1))%nat.
Proof.
  apply (horizon_without_one late_example CreateSolver).
  - intros t Ht. cbn in Ht. rewrite !elem_of_cons, elem_of_nil in Ht.
    destruct Ht as [-> | [-> | []]]; split; eexists; reflexivity.
  - apply representableb_sound. vm_compute. reflexivity.
  - intros t Ht. cbn in Ht. apply list_elem_of_singleton in Ht as ->.
    cbn. apply list_elem_of_here.
  - cbn. rewrite !elem_of_cons, elem_of_nil. intros [|[|[]]]; done.
Defined.

(** X7.  A gap in the horizon: when every element has a price and a cost,
    every number converts to a double, and [t] is the first element of
    [times[1:]] whose predecessor [t - 1] is not in [times], the build cells
    raise KeyError(t - 1); the solver then holds all variables, the
    objective, all limit constraints and the transition constraints of the
    elements before [t]. *)
Theorem gap_in_horizon inp s t0 pre t post :
  covered inp -> representable inp ->
  times inp = t0 :: pre ++ t :: post ->
  (forall z, z ∈ pre -> (z - 1)%Z ∈ times inp) ->
  (t - 1)%Z ∉ times inp ->
  exists s',
    build_cells inp s = (Raised (KeyError (t - 1)), s')
    /\ variables s' = variables s ++ (times inp ≫= period_vars inp)
    /\ (exists e, objective s' = Some (Maximization, e))
    /\ length (constraints s')
       = (length (constraints s) + 2 * length (times inp) + length pre)%nat.
Proof.
  intros Hc Hrep HT Hpre Hgap.
  rewrite (build_cells_representable_run inp s Hrep). cbv zeta.
  set (base := length (variables s)). set (T := times inp).
  destruct (proj2 (objective_cell_made inp base T) Hc) as [es ->].
  assert (Htail : tail T = pre ++ t :: post) by (unfold T; by rewrite HT).
  assert (Hin : forall z, z ∈ pre ++ t :: post -> z ∈ T).
  { intros z Hz. apply elem_of_tail. by rewrite Htail. }
  assert (Hok : forall z, z ∈ pre ->
            exists c, transition (made_handles base T) z = Returned c).
  { intros z Hz. apply transition_made; [|by apply Hpre].
    apply Hin, elem_of_app. by left. }
  assert (Hfail : transition (made_handles base T) t = Raised (KeyError (t - 1))).
  { apply transition_made; [|done].
    apply Hin, elem_of_app. right. apply list_elem_of_here. }
  rewrite Htail, (comprehension_first _ pre t post _ Hok Hfail).
  eexists. split; [reflexivity|]. cbn. split_and!; [done | eauto |].
  rewrite !length_app, (limits_at_length inp base T T) by done.
  by rewrite (collect_length _ pre t post _ Hok Hfail).
Qed.

Lemma gap_in_horizon_witness :
  exists s',
    build_cells gapped_example CreateSolver = (Raised (KeyError (3 - 1)), s')
    /\ variables s'
       = variables CreateSolver
         ++ (times gapped_example ≫= period_vars gapped_example)
    /\ (exists e, objective s' = Some (Maximization, e))
    /\ length (constraints s')
       = (length (constraints CreateSolver) + 2 * length (times gapped_example)
          + length (@nil Z))%nat.
Proof.
  apply (gap_in_horizon gapped_example CreateSolver 1%Z [] 3%Z []).
  - intros t Ht. cbn in Ht. rewrite !elem_of_cons, elem_of_nil in Ht.
    destruct Ht as [-> | [-> | []]]; split; eexists; reflexivity.
  - apply representableb_sound. vm_compute. reflexivity.
  - reflexivity.
  - intros z Hz. by apply elem_of_nil in Hz.
  - cbn. rewrite !elem_of_cons, elem_of_nil. intros [|[|[]]]; done.
Defined.

(** X8.  The build cells only append, and do not undo anything when they
    fail: for every input and every solver state, whatever the outcome, the
    solver afterwards holds its former constraints as a prefix of its
    constraints, and its former variables followed by the four variables of
    every element of [times]; only when TypeError is raised the new
    variables are the first three of these instead. *)
Theorem build_only_appends inp s :
  (variables (build_cells inp s).2
   = variables s ++ (times inp ≫= period_vars inp)
   \/ ((build_cells inp s).1 = Raised TypeError
       /\ variables (build_cells inp s).2
          = variables s ++ take 3 (times inp ≫= period_vars inp)))
  /\ exists cs, constraints (build_cells inp s).2 = constraints s ++ cs.
Proof.
  assert (Hnil : forall l : list LinearConstraint, exists cs, l = l ++ cs).
  { intros l. exists []. by rewrite app_nil_r. }
  rewrite build_cells_run. cbv zeta.
  destruct (max_output_fits inp); [|cbn; auto].
  destruct (comprehension _ (times inp)) as [es|e]; [|cbn; auto].
  destruct (convertible (SumArray es)); [|cbn; auto].
  destruct (min_output_fits inp); [|cbn; auto].
  destruct (comprehension _ (tail (times inp))) as [cs|e].
  - destruct (first_period _) as [c|e]; cbn; (split; [by left|]);
      rewrite <- app_assoc; eauto.
  - cbn. split; [by left|]. rewrite <- app_assoc. eauto.
Qed.

Lemma build_only_appends_witness :
  (build_cells oversized_example example_solver).1 = Raised TypeError
  /\ length (variables (build_cells oversized_example example_solver).2)
     = 15%nat
  /\ exists cs, constraints (build_cells oversized_example example_solver).2
                = constraints example_solver ++ cs.
Proof.
  destruct (build_only_appends oversized_example example_solver)
    as [[Hv|[He Hv]] Hc].
  - exfalso. apply (f_equal length) in Hv. revert Hv. vm_compute. discriminate.
  - split_and!; [exact He | by rewrite Hv | exact Hc].
Defined.

(** X9.  A build that completes, on any accepted horizon and any solver
    state, has added four variables and three constraints per element of
    [times] and has set a maximisation objective with one term per element,
    replacing whatever objective the solver had. *)
Theorem completed_build_size inp s h s' :
  build_cells inp s = (Returned h, s') ->
  length (variables s') = (length (variables s) + 4 * length (times inp))%nat
  /\ length (constraints s')
     = (length (constraints s) + 3 * length (times inp))%nat
  /\ exists es, objective s' = Some (Maximization, SumArray es)
                /\ length es = length (times inp).
Proof.
  intros Hb. destruct (build_cells_Returned _ _ _ _ Hb)
    as (es & cs & c & Hes & Hcs & Hfp & -> & ->).
  set (base := length (variables s)) in *. set (T := times inp) in *.
  assert (H1 : 1%Z ∈ T).
  { destruct (decide (1%Z ∈ T)) as [Hyes|Hnot]; [exact Hyes|].
    destruct (first_period_made base T) as [_ Hf0].
    rewrite (Hf0 Hnot) in Hfp. discriminate Hfp. }
  assert (0 < length T)%nat by (destruct T; [by apply elem_of_nil in H1 | cbn; lia]).
  cbn. split_and!.
  - rewrite length_app, period_vars_length. done.
  - rewrite !length_app, (limits_at_length inp base T T) by done.
    rewrite (comprehension_length _ _ _ Hcs), tail_length. cbn. lia.
  - exists es. split; [done|]. by apply comprehension_length in Hes.
Qed.

Lemma completed_build_size_witness :
  length (variables (build_cells shuffled_example example_solver).2)
  = (length (variables example_solver) + 4 * length (times shuffled_example))%nat
  /\ length (constraints (build_cells shuffled_example example_solver).2)
     = (length (constraints example_solver)
        + 3 * length (times shuffled_example))%nat
  /\ exists es, objective (build_cells shuffled_example example_solver).2
                = Some (Maximization, SumArray es)
                /\ length es = length (times shuffled_example).
Proof.
  apply (completed_build_size shuffled_example example_solver
           (made_handles 12 [1; 3; 2]%Z)).
  vm_compute. reflexivity.
Defined.

(** X10.  After a build that completed, on any accepted horizon, the
    reporting cells do not fail, whatever the solver reports: they print one
    value per element of [times] in each of the four lists, and an objective
    value exactly for status OPTIMAL. *)
Theorem report_after_completed_build inp s h s' r :
  build_cells inp s = (Returned h, s') ->
  exists out,
    report inp h r = Returned out
    /\ length (printed_production out) = length (times inp)
    /\ length (printed_operating out) = length (times inp)
    /\ length (printed_start_up out) = length (times inp)
    /\ length (printed_shut_down out) = length (times inp)
    /\ (is_Some (printed_objective out) <-> status r = OPTIMAL).
Proof.
  intros Hb. destruct (build_cells_Returned _ _ _ _ Hb)
    as (es & cs & c & _ & _ & _ & -> & _).
  set (base := length (variables s)). set (T := times inp).
  assert (Hread : forall (ix : nat -> nat -> VarIndex) (d : VarDict),
            (forall t, getvar d t = handle ix base T t) ->
            exists l, comprehension (read_value (values r) d) T = Returned l
                      /\ length l = length T).
  { intros ix d Hd.
    destruct (proj2 (comprehension_Returned (read_value (values r) d) T))
      as [l Hl].
    - intros t Ht. specialize (Hd t).
      destruct (handle_Returned ix base T t Ht) as [x Hx]. rewrite Hx in Hd.
      unfold getvar in Hd. unfold read_value.
      destruct (d !! t) as [[y|]|]; [eauto | done | done].
    - exists l. split; [done|]. by apply comprehension_length in Hl. }
  destruct (Hread pr_ix (production (made_handles base T))) as (l1 & H1 & L1).
  { intros t. apply made_handles_getvar. }
  destruct (Hread op_ix (operating (made_handles base T))) as (l2 & H2 & L2).
  { intros t. apply made_handles_getvar. }
  destruct (Hread su_ix (start_up (made_handles base T))) as (l3 & H3 & L3).
  { intros t. apply made_handles_getvar. }
  destruct (Hread sd_ix (shut_down (made_handles base T))) as (l4 & H4 & L4).
  { intros t. apply made_handles_getvar. }
  unfold report. fold T. rewrite H1, H2, H3, H4. cbn.
  eexists. split; [reflexivity|]. cbn. split_and!; try done.
  destruct (status r); split; intros H; try done; by destruct H.
Qed.

Lemma report_after_completed_build_witness :
  exists out,
    report shuffled_example (made_handles 0 [1; 3; 2]%Z) infeasible_result
    = Returned out
    /\ length (printed_production out) = length (times shuffled_example)
    /\ length (printed_operating out) = length (times shuffled_example)
    /\ length (printed_start_up out) = length (times shuffled_example)
    /\ length (printed_shut_down out) = length (times shuffled_example)
    /\ (is_Some (printed_objective out) <-> status infeasible_result = OPTIMAL).
Proof.
  apply (report_after_completed_build shuffled_example CreateSolver
           (made_handles 0 [1; 3; 2]%Z)
           (build_cells shuffled_example CreateSolver).2 infeasible_result).
  vm_compute. reflexivity.
Defined.

(** X17.  A price, a cost or a start-up cost is not checked before it
    reaches the solver: when every element of [times] has a price and a
    cost and PROD_MAX converts to a double, but some margin or the start-up
    cost does not, the build cells raise OverflowError at
    [solver.Maximize]; the solver then holds all variables, no new
    constraint, and a cleared maximisation objective in place of whatever
    objective it had. *)
Theorem oversized_coefficient_overflows inp s t :
  covered inp -> fits_double (PROD_MAX inp) = true -> t ∈ times inp ->
  fits_double (price_at inp t - cost_at inp t) = false
  \/ fits_double (START_UP_COSTS inp) = false ->
  build_cells inp s
  = (Raised OverflowError,
     {| variables := variables s ++ (times inp ≫= period_vars inp);
        constraints := constraints s;
        objective := Some (Maximization, SumArray []) |}).
Proof.
  intros Hc Fmax Ht Hbad. rewrite build_cells_run. cbv zeta.
  rewrite (max_output_fits_elem inp t Ht), Fmax.
  destruct (proj2 (objective_cell_made inp (length (variables s)) (times inp)) Hc)
    as [es Hes].
  rewrite Hes.
  destruct (convertible (SumArray es)) eqn:Fobj; [|done].
  destruct (proj1 (objective_convertible _ _ _ _ Hes) Fobj t Ht) as [F1 F2].
  destruct Hbad; congruence.
Qed.

Lemma oversized_coefficient_overflows_witness :
  build_cells overpriced_example CreateSolver
  = (Raised OverflowError,
     {| variables := variables CreateSolver
                     ++ (times overpriced_example
                           ≫= period_vars overpriced_example);
        constraints := constraints CreateSolver;
        objective := Some (Maximization, SumArray []) |}).
Proof.
  apply (oversized_coefficient_overflows overpriced_example CreateSolver 1%Z).
  - intros t Ht. cbn in Ht. rewrite !elem_of_cons, elem_of_nil in Ht.
    destruct Ht as [-> | [-> | [-> | []]]]; split; eexists; reflexivity.
  - vm_compute. reflexivity.
  - apply list_elem_of_here.
  - left. vm_compute. reflexivity.
Defined.

(** X18.  The lower output limit is not checked either: when only PROD_MIN
    does not convert to a double, on a horizon that is not empty, the build
    cells raise OverflowError at the first [solver.Add] of the cell
    "Production limits"; the solver then holds all variables and the
    objective, and no new constraint. *)
Theorem oversized_min_output_overflows inp s t :
  covered inp -> t ∈ times inp ->
  fits_double (PROD_MAX inp) = true ->
  fits_double (START_UP_COSTS inp) = true ->
  (forall x, x ∈ times inp ->
     fits_double (price_at inp x - cost_at inp x) = true) ->
  fits_double (PROD_MIN inp) = false ->
  exists es,
    build_cells inp s
    = (Raised OverflowError,
       {| variables := variables s ++ (times inp ≫= period_vars inp);
          constraints := constraints s;
          objective := Some (Maximization, SumArray es) |})
    /\ length es = length (times inp).
Proof.
  intros Hc Ht Fmax Fsu Fmargin Fmin. rewrite build_cells_run. cbv zeta.
  rewrite (max_output_fits_elem inp t Ht), (min_output_fits_elem inp t Ht).
  rewrite Fmax, Fmin.
  destruct (proj2 (objective_cell_made inp (length (variables s)) (times inp)) Hc)
    as [es Hes].
  rewrite Hes, (proj2 (objective_convertible _ _ _ _ Hes)) by auto.
  exists es. split; [done|]. by apply comprehension_length in Hes.
Qed.

Lemma oversized_min_output_overflows_witness :
  exists es,
    build_cells overloaded_example CreateSolver
    = (Raised OverflowError,
       {| variables := variables CreateSolver
                       ++ (times overloaded_example
                             ≫= period_vars overloaded_example);
          constraints := constraints CreateSolver;
          objective := Some (Maximization, SumArray es) |})
    /\ length es = length (times overloaded_example).
Proof.
  assert (Hin : forall t, t ∈ times overloaded_example ->
                          t = 1%Z \/ t = 2%Z \/ t = 3%Z).
  { intros t Ht. cbn in Ht. rewrite !elem_of_cons, elem_of_nil in Ht. tauto. }
  apply (oversized_min_output_overflows overloaded_example CreateSolver 1%Z).
  - intros t [-> | [-> | ->]]%Hin; split; eexists; reflexivity.
  - apply list_elem_of_here.
  - vm_compute. reflexivity.
  - vm_compute. reflexivity.
  - intros t [-> | [-> | ->]]%Hin; vm_compute; reflexivity.
  - vm_compute. reflexivity.
Defined.

(** ** Properties of the model the cells build *)

Lemma positive_part_spec x :
  0 <= positive_part x /\ x <= positive_part x
  /\ (x <= 0 -> positive_part x == 0).
Proof.
  unfold positive_part. destruct (Qle_bool 0 x) eqn:H.
  - apply Qle_bool_iff in H. split_and!; lra.
  - assert (~ 0 <= x) by (rewrite <- Qle_bool_iff; congruence).
    split_and!; lra.
Qed.

Lemma term_le_cap (m p v M c : Q) :
  0 <= p -> p <= M -> 0 <= v -> 0 <= c ->
  m * p - c * v <= positive_part m * M.
Proof.
  intros Hp HpM Hv Hc. destruct (positive_part_spec m) as (H0 & Hm & _).
  assert (0 <= c * v) by (by apply Qmult_le_0_compat).
  assert (m * p <= positive_part m * p)
    by (apply Qmult_le_compat_r; done).
  assert (positive_part m * p <= positive_part m * M).
  { rewrite !(Qmult_comm (positive_part m)). by apply Qmult_le_compat_r. }
  lra.
Qed.

Lemma profit_le_cap inp σ :
  0 <= START_UP_COSTS inp -> unit_commitment inp σ ->
  profit inp σ <= profit_cap inp.
Proof.
  intros Hc Hσ. unfold profit, profit_cap.
  assert (Hl : forall t, t ∈ times inp ->
            0 <= p_t σ t /\ p_t σ t <= PROD_MAX inp /\ 0 <= v_t σ t).
  { intros t Ht. destruct (Hσ t Ht) as (_ & Hv & _ & ? & ? & _).
    apply binary_bounds in Hv. tauto. }
  clear Hσ. induction (times inp) as [|t l IH]; cbn [fold_right]; [lra|].
  destruct (Hl t) as (? & ? & ?); [apply list_elem_of_here|].
  pose proof (term_le_cap (price_at inp t - cost_at inp t) (p_t σ t)
                (v_t σ t) (PROD_MAX inp) (START_UP_COSTS inp)
                ltac:(done) ltac:(done) ltac:(done) Hc).
  assert (fold_right
            (fun t acc => (price_at inp t - cost_at inp t) * p_t σ t
                          - START_UP_COSTS inp * v_t σ t + acc) 0 l
          <= fold_right
               (fun t acc => positive_part (price_at inp t - cost_at inp t)
                             * PROD_MAX inp + acc) 0 l).
  { apply IH. intros x Hx. apply Hl. by apply list_elem_of_further. }
  lra.
Qed.

Lemma profit_cap_zero inp :
  (forall t, t ∈ times inp -> price_at inp t <= cost_at inp t) ->
  profit_cap inp == 0.
Proof.
  unfold profit_cap. intros H.
  induction (times inp) as [|t l IH]; cbn [fold_right]; [reflexivity|].
  rewrite IH by (intros x Hx; apply H; by apply list_elem_of_further).
  destruct (positive_part_spec (price_at inp t - cost_at inp t)) as (_ & _ & ->).
  - lra.
  - specialize (H t (list_elem_of_here _ _)). lra.
Qed.

(** X11.  The model of a valid input is bounded: no feasible assignment has
    an objective value above the sum over the horizon of
    max(0, price - cost) * PROD_MAX, so a correct solver never reports
    Unbounded for it. *)
Theorem objective_bounded inp h s :
  valid_input inp -> buildModel inp = (Returned h, s) ->
  (forall a, feasible s a -> objective_at s a <= profit_cap inp)
  /\ (forall r, solver_contract s r -> status r <> UNBOUNDED).
Proof.
  intros Hv Hb.
  assert (Hcap : forall a, feasible s a -> objective_at s a <= profit_cap inp).
  { intros a Ha. rewrite (objective_is_profit inp h s a Hv Hb).
    apply profit_le_cap; [apply Hv|].
    by apply (feasible_iff_unit_commitment inp h s a Hv Hb). }
  split; [done|]. intros r Hc Hs. unfold solver_contract in Hc.
  rewrite Hs in Hc. destruct (Hc (profit_cap inp)) as (a & Ha & Hlt).
  specialize (Hcap a Ha). lra.
Qed.

Lemma objective_bounded_witness :
  (forall a, feasible example_solver a ->
             objective_at example_solver a <= profit_cap example)
  /\ (forall r, solver_contract example_solver r -> status r <> UNBOUNDED).
Proof.
  apply (objective_bounded example example_handles example_solver).
  - exact example_valid.
  - exact example_built.
Defined.

Lemma unprofitable_valid : valid_input unprofitable_example.
Proof.
  assert (Hin : forall t, t ∈ times unprofitable_example ->
                          t = 1%Z \/ t = 2%Z \/ t = 3%Z).
  { intros t Ht. cbn in Ht. rewrite !elem_of_cons, elem_of_nil in Ht. tauto. }
  split; try (cbn; lra).
  - reflexivity.
  - cbn. lia.
  - intros t [-> | [-> | ->]]%Hin; exists 120; (split; [reflexivity | lra]).
  - intros t [-> | [-> | ->]]%Hin; eexists; reflexivity.
Qed.

(** X12.  When no period of a valid input has a price above its cost,
    leaving the plant off in every period (the all-zero assignment) is
    optimal, and every result reported as optimal has objective value 0. *)
Theorem never_profitable_stays_off inp h s :
  valid_input inp -> buildModel inp = (Returned h, s) ->
  (forall t, t ∈ times inp -> price_at inp t <= cost_at inp t) ->
  optimal s all_zero
  /\ (forall r, solver_contract s r -> status r = OPTIMAL ->
                objective_value r == 0).
Proof.
  intros Hv Hb Hm.
  pose proof (all_zero_feasible inp h s Hv Hb) as Hz.
  assert (Hobj : objective_at s all_zero == 0).
  { rewrite (objective_is_profit inp h s _ Hv Hb). apply profit_all_zero. }
  assert (Hcap : forall a, feasible s a -> objective_at s a <= 0).
  { intros a Ha. rewrite (objective_is_profit inp h s a Hv Hb).
    rewrite <- (profit_cap_zero inp Hm).
    apply profit_le_cap; [apply Hv|].
    by apply (feasible_iff_unit_commitment inp h s a Hv Hb). }
  split.
  - split; [done|]. intros a Ha. rewrite Hobj. by apply Hcap.
  - intros r Hc Hs. unfold solver_contract in Hc. rewrite Hs in Hc.
    destruct Hc as [[Hf Hopt] ->]. apply Qle_antisym; [by apply Hcap|].
    rewrite <- Hobj. by apply Hopt.
Qed.

Lemma never_profitable_stays_off_witness :
  optimal (buildModel unprofitable_example).2 all_zero
  /\ (forall r, solver_contract (buildModel unprofitable_example).2 r ->
                status r = OPTIMAL -> objective_value r == 0).
Proof.
  apply (never_profitable_stays_off unprofitable_example
           (built_handles 0 3)).
  - exact unprofitable_valid.
  - vm_compute. reflexivity.
  - intros t Ht. cbn in Ht. rewrite !elem_of_cons, elem_of_nil in Ht.
    destruct Ht as [-> | [-> | [-> | []]]]; vm_compute; discriminate.
Defined.

(** X13.  In every feasible assignment of the model of a valid input the
    start-up and shut-down indicators of a period after the first follow the
    change of the operating state: switching on forces a start-up and no
    shut-down, switching off forces a shut-down and no start-up, and an
    unchanged state forces both indicators to be equal. *)
Theorem transitions_follow_state inp h s a :
  valid_input inp -> buildModel inp = (Returned h, s) -> feasible s a ->
  forall t, t ∈ times inp -> t <> 1%Z ->
    let σ := schedule a h in
    (u_t σ (t - 1) == 0 -> u_t σ t == 1 -> v_t σ t == 1 /\ w_t σ t == 0)
    /\ (u_t σ (t - 1) == 1 -> u_t σ t == 0 -> v_t σ t == 0 /\ w_t σ t == 1)
    /\ (u_t σ t == u_t σ (t - 1) -> v_t σ t == w_t σ t).
Proof.
  intros Hv Hb Hf t Ht Hne σ.
  apply (feasible_iff_unit_commitment inp h s a Hv Hb) in Hf.
  destruct (Hf t Ht) as (_ & [V|V] & [W|W] & _ & _ & _ & _ & Heq & _);
    specialize (Heq Hne); fold σ in Heq, V, W; rewrite V, W in *;
    split_and!; intros; split_and?; lra.
Qed.

Lemma transitions_follow_state_witness :
  let σ := schedule (values printed_solution) example_handles in
  (u_t σ (3 - 1) == 0 -> u_t σ 3 == 1 -> v_t σ 3 == 1 /\ w_t σ 3 == 0)
  /\ (u_t σ (3 - 1) == 1 -> u_t σ 3 == 0 -> v_t σ 3 == 0 /\ w_t σ 3 == 1)
  /\ (u_t σ 3 == u_t σ (3 - 1) -> v_t σ 3 == w_t σ 3).
Proof.
  apply (transitions_follow_state example example_handles example_solver
           (values printed_solution)).
  - exact example_valid.
  - exact example_built.
  - apply printed_solution_optimal.
  - cbn. rewrite !elem_of_cons. tauto.
  - done.
Defined.

Ltac override_ix :=
  unfold override, op_ix, su_ix, sd_ix, pr_ix;
  repeat match goal with
         | |- context [Nat.eqb ?x ?y] => destruct (Nat.eqb_spec x y); try lia
         end;
  try done.

Lemma feasible_fresh inp n a :
  (0 < n)%nat ->
  feasible (built_solver inp n CreateSolver) a <-> block_ok inp 0 n a.
Proof.
  intros Hn. rewrite (feasible_built inp n CreateSolver a Hn).
  pose proof (feasible_CreateSolver a). cbn [CreateSolver variables length].
  tauto.
Qed.

(** How the objective value changes when an assignment is changed at the
    production and start-up variables of one period only. *)
Lemma model_objective_delta inp base n a a' k :
  (k < n)%nat ->
  (forall j, (j < n)%nat -> j <> k ->
     a' (pr_ix base j) = a (pr_ix base j)
     /\ a' (su_ix base j) = a (su_ix base j)) ->
  eval a' (model_objective inp base n)
  == eval a (model_objective inp base n)
     + (price_at inp (period k) - cost_at inp (period k))
       * (a' (pr_ix base k) - a (pr_ix base k))
     - START_UP_COSTS inp * (a' (su_ix base k) - a (su_ix base k)).
Proof.
  intros Hk Hsame. unfold model_objective. cbn [eval].
  set (δ := (price_at inp (period k) - cost_at inp (period k))
            * (a' (pr_ix base k) - a (pr_ix base k))
            - START_UP_COSTS inp * (a' (su_ix base k) - a (su_ix base k))).
  assert (Hgen : forall ks, NoDup ks -> (forall j, j ∈ ks -> (j < n)%nat) ->
            fold_right (fun e acc => eval a' e + acc) 0
              (objective_term inp base <$> ks)
            == fold_right (fun e acc => eval a e + acc) 0
                 (objective_term inp base <$> ks)
               + (if decide (k ∈ ks) then δ else 0)).
  { induction ks as [|j ks IH]; intros Hnd Hlt.
    - cbn. rewrite decide_False by apply not_elem_of_nil. lra.
    - apply NoDup_cons in Hnd as [Hj Hnd]. rewrite fmap_cons.
      cbn [fold_right]. rewrite IH; [|done|].
      2:{ intros i Hi. apply Hlt. by apply list_elem_of_further. }
      cbn [eval objective_term].
      destruct (decide (j = k)) as [->|Hne].
      + rewrite (decide_False (P := k ∈ ks)) by done.
        rewrite (decide_True (P := k ∈ k :: ks)) by apply list_elem_of_here.
        unfold δ. lra.
      + destruct (Hsame j) as [-> ->]; [apply Hlt, list_elem_of_here | done|].
        destruct (decide (k ∈ ks)) as [Hin|Hnot].
        * rewrite decide_True by (by apply list_elem_of_further). lra.
        * rewrite decide_False; [lra|].
          rewrite elem_of_cons. intros [?|?]; congruence. }
  rewrite (Hgen (seq 0 n)).
  - rewrite decide_True by (apply elem_of_seq; lia). unfold δ. lra.
  - apply NoDup_seq.
  - intros j Hj%elem_of_seq. lia.
Qed.

(** In an optimal assignment no period after the first carries a start-up
    together with a shut-down, when start-ups cost something. *)
Lemma no_phantom_ix inp n a k :
  0 < START_UP_COSTS inp ->
  optimal (built_solver inp n CreateSolver) a ->
  (0 < k)%nat -> (k < n)%nat ->
  a (su_ix 0 k) == 1 -> a (sd_ix 0 k) == 1 -> False.
Proof.
  intros Hc [Hfeas Hopt] Hk0 Hk Hsu Hsd.
  assert (Hn : (0 < n)%nat) by lia.
  set (a' := override (override a (su_ix 0 k) 0) (sd_ix 0 k) 0).
  assert (Fop : forall j, a' (op_ix 0 j) = a (op_ix 0 j)).
  { intros j. unfold a'. override_ix. }
  assert (Fpr : forall j, a' (pr_ix 0 j) = a (pr_ix 0 j)).
  { intros j. unfold a'. override_ix. }
  assert (Fsu : forall j, j <> k -> a' (su_ix 0 j) = a (su_ix 0 j)).
  { intros j Hj. unfold a'. override_ix. }
  assert (Fsd : forall j, j <> k -> a' (sd_ix 0 j) = a (sd_ix 0 j)).
  { intros j Hj. unfold a'. override_ix. }
  assert (Gsu : a' (su_ix 0 k) = 0).
  { unfold a'. override_ix. }
  assert (Gsd : a' (sd_ix 0 k) = 0).
  { unfold a'. override_ix. }
  apply (feasible_fresh inp n a Hn) in Hfeas as (Hper & Htr & Hfirst).
  assert (Hfeas' : feasible (built_solver inp n CreateSolver) a').
  { apply (feasible_fresh inp n a' Hn). split_and!.
    - intros j Hj. specialize (Hper j Hj). unfold period_ok in *.
      rewrite Fop, Fpr. destruct (decide (j = k)) as [->|Hne].
      + rewrite Gsu, Gsd. split_and!; try tauto; by left.
      + by rewrite Fsu, Fsd.
    - intros j Hj. specialize (Htr j Hj). rewrite !Fop.
      destruct (decide (S j = k)) as [<-|Hne].
      + rewrite Gsu, Gsd. rewrite Hsu, Hsd in Htr. lra.
      + by rewrite Fsu, Fsd.
    - rewrite Fop, Fsu by lia. done. }
  specialize (Hopt a' Hfeas'). revert Hopt.
  unfold objective_at, objective_expr. cbn [built_solver objective].
  cbn [CreateSolver variables length].
  rewrite (model_objective_delta inp 0 n a a' k Hk).
  - rewrite Fpr, Gsu, Hsu. lra.
  - intros j _ Hj. by rewrite Fpr, Fsu.
Qed.

(** In an optimal assignment a running plant produces at the upper limit
    when the price exceeds the cost, and at the lower limit when the cost
    exceeds the price. *)
Lemma production_at_limit_ix inp n a k :
  0 <= PROD_MIN inp -> PROD_MIN inp < PROD_MAX inp ->
  optimal (built_solver inp n CreateSolver) a ->
  (k < n)%nat -> a (op_ix 0 k) == 1 ->
  (cost_at inp (period k) < price_at inp (period k) ->
     a (pr_ix 0 k) == PROD_MAX inp)
  /\ (price_at inp (period k) < cost_at inp (period k) ->
      a (pr_ix 0 k) == PROD_MIN inp).
Proof.
  intros Hmin Hmax [Hfeas Hopt] Hk Hop.
  assert (Hn : (0 < n)%nat) by lia.
  apply (feasible_fresh inp n a Hn) in Hfeas as (Hper & Htr & Hfirst).
  assert (Hto : forall x, PROD_MIN inp <= x -> x <= PROD_MAX inp ->
            (price_at inp (period k) - cost_at inp (period k))
            * (x - a (pr_ix 0 k)) <= 0).
  { intros x Hx1 Hx2. set (a' := override a (pr_ix 0 k) x).
    assert (Fop : forall j, a' (op_ix 0 j) = a (op_ix 0 j)).
    { intros j. unfold a'. override_ix. }
    assert (Fsu : forall j, a' (su_ix 0 j) = a (su_ix 0 j)).
    { intros j. unfold a'. override_ix. }
    assert (Fsd : forall j, a' (sd_ix 0 j) = a (sd_ix 0 j)).
    { intros j. unfold a'. override_ix. }
    assert (Fpr : forall j, j <> k -> a' (pr_ix 0 j) = a (pr_ix 0 j)).
    { intros j Hj. unfold a'. override_ix. }
    assert (Gpr : a' (pr_ix 0 k) = x) by apply override_same.
    assert (Hfeas' : feasible (built_solver inp n CreateSolver) a').
    { apply (feasible_fresh inp n a' Hn). split_and!.
      - intros j Hj. specialize (Hper j Hj). unfold period_ok in *.
        rewrite Fop, Fsu, Fsd. destruct (decide (j = k)) as [->|Hne].
        + rewrite Gpr. destruct Hper as (B1 & B2 & B3 & _).
          assert (a (op_ix 0 k) * PROD_MIN inp == PROD_MIN inp)
            by (rewrite Hop; lra).
          assert (a (op_ix 0 k) * PROD_MAX inp == PROD_MAX inp)
            by (rewrite Hop; lra).
          split_and!; try done; lra.
        + by rewrite Fpr.
      - intros j Hj. rewrite !Fop, Fsu, Fsd. by apply Htr.
      - by rewrite Fop, Fsu. }
    specialize (Hopt a' Hfeas'). revert Hopt.
    unfold objective_at, objective_expr. cbn [built_solver objective].
    cbn [CreateSolver variables length].
    rewrite (model_objective_delta inp 0 n a a' k Hk).
    - rewrite Fsu, Gpr. lra.
    - intros j _ Hj. by rewrite Fpr, Fsu. }
  destruct (Hper k Hk) as (_ & _ & _ & _ & Hub & Hlo & _).
  rewrite Hop in Hlo. split; intros Hm.
  - apply Qle_antisym; [done|]. apply Qnot_lt_le. intros Hlt.
    specialize (Hto (PROD_MAX inp) ltac:(lra) ltac:(lra)).
    assert (0 < (price_at inp (period k) - cost_at inp (period k))
                * (PROD_MAX inp - a (pr_ix 0 k)))
      by (apply Qmult_lt_0_compat; lra).
    lra.
  - apply Qle_antisym; [|lra]. apply Qnot_lt_le. intros Hlt.
    specialize (Hto (PROD_MIN inp) ltac:(lra) ltac:(lra)).
    assert (0 < (cost_at inp (period k) - price_at inp (period k))
                * (a (pr_ix 0 k) - PROD_MIN inp))
      by (apply Qmult_lt_0_compat; lra).
    lra.
Qed.

(** X14.  When start-ups cost something, an optimal assignment of the model
    of a valid input charges a start-up in a period after the first exactly
    when the plant is switched on there: no period carries a start-up
    together with a shut-down, and the start-up indicator is 1 if and only if
    the plant was off in the period before and is on in this one. *)
Theorem start_up_only_when_switched_on inp h s a :
  valid_input inp -> buildModel inp = (Returned h, s) ->
  0 < START_UP_COSTS inp -> optimal s a ->
  forall t, t ∈ times inp -> t <> 1%Z ->
    let σ := schedule a h in
    ~ (v_t σ t == 1 /\ w_t σ t == 1)
    /\ (v_t σ t == 1 <-> u_t σ (t - 1) == 0 /\ u_t σ t == 1).
Proof.
  intros Hv Hb Hc Hopt t Ht Hne σ.
  assert (Hphantom : ~ (v_t σ t == 1 /\ w_t σ t == 1)).
  { destruct (built_model inp h s Hv Hb) as [Hh Hs]. symmetry in Hh, Hs.
    subst σ. rewrite <- Hh. rewrite <- Hs in Hopt.
    rewrite (valid_horizon inp Hv) in Ht.
    apply list_elem_of_lookup in Ht as [k [-> Hk]%horizon_lookup].
    destruct (schedule_built a 0 _ k Hk) as (_ & -> & -> & _).
    intros [Hsu Hsd].
    apply (no_phantom_ix inp _ a k Hc Hopt); [|done..].
    destruct k; [done | lia]. }
  split; [done|].
  destruct Hopt as [Hf _].
  apply (feasible_iff_unit_commitment inp h s a Hv Hb) in Hf.
  assert (Ht' : (t - 1)%Z ∈ times inp).
  { rewrite (valid_horizon inp Hv) in Ht |- *.
    apply horizon_elem in Ht. apply horizon_elem. lia. }
  destruct (Hf t Ht) as ([U|U] & [V|V] & [W|W] & _ & _ & _ & _ & Heq & _);
    destruct (Hf _ Ht') as ([U'|U'] & _);
    specialize (Heq Hne); fold σ in Heq, U, V, W, U', Hphantom;
    rewrite U, V, W, U' in *;
    (split; [intros ?; first [by exfalso; apply Hphantom | split; lra]
            | intros [? ?]; lra]).
Qed.

Lemma start_up_only_when_switched_on_witness :
  let σ := schedule (values printed_solution) example_handles in
  ~ (v_t σ 3 == 1 /\ w_t σ 3 == 1)
  /\ (v_t σ 3 == 1 <-> u_t σ (3 - 1) == 0 /\ u_t σ 3 == 1).
Proof.
  apply (start_up_only_when_switched_on example example_handles example_solver
           (values printed_solution)).
  - exact example_valid.
  - exact example_built.
  - reflexivity.
  - apply printed_solution_optimal.
  - cbn. rewrite !elem_of_cons. tauto.
  - done.
Defined.

(** X15.  In an optimal assignment of the model of a valid input a running
    plant produces PROD_MAX in every period whose price exceeds the cost, and
    PROD_MIN in every period whose cost exceeds the price. *)
Theorem running_plant_produces_at_limit inp h s a :
  valid_input inp -> buildModel inp = (Returned h, s) -> optimal s a ->
  forall t, t ∈ times inp ->
    let σ := schedule a h in
    u_t σ t == 1 ->
    (cost_at inp t < price_at inp t -> p_t σ t == PROD_MAX inp)
    /\ (price_at inp t < cost_at inp t -> p_t σ t == PROD_MIN inp).
Proof.
  intros Hv Hb Hopt t Ht σ.
  destruct (built_model inp h s Hv Hb) as [Hh Hs]. symmetry in Hh, Hs.
  clear Hb. subst σ. rewrite <- Hh. rewrite <- Hs in Hopt.
  rewrite (valid_horizon inp Hv) in Ht.
  apply list_elem_of_lookup in Ht as [k [-> Hk]%horizon_lookup].
  destruct (schedule_built a 0 _ k Hk) as (-> & _ & _ & ->).
  apply (production_at_limit_ix inp (length (times inp)) a k);
    [apply Hv | apply Hv | done..].
Qed.

Lemma running_plant_produces_at_limit_witness :
  let σ := schedule (values printed_solution) example_handles in
  (cost_at example 1 < price_at example 1 -> p_t σ 1 == PROD_MAX example)
  /\ (price_at example 1 < cost_at example 1 -> p_t σ 1 == PROD_MIN example).
Proof.
  apply (running_plant_produces_at_limit example example_handles
           example_solver (values printed_solution)).
  - exact example_valid.
  - exact example_built.
  - apply printed_solution_optimal.
  - cbn. rewrite !elem_of_cons. tauto.
  - vm_compute. reflexivity.
Defined.

Lemma better_valid : valid_input better_example.
Proof.
  assert (Hin : forall t, t ∈ times better_example ->
                          t = 1%Z \/ t = 2%Z \/ t = 3%Z).
  { intros t Ht. cbn in Ht. rewrite !elem_of_cons, elem_of_nil in Ht. tauto. }
  split; try (cbn; lra).
  - reflexivity.
  - cbn. lia.
  - intros t [-> | [-> | ->]]%Hin; exists 120; (split; [reflexivity | lra]).
  - intros t [-> | [-> | ->]]%Hin; eexists; reflexivity.
Qed.

Lemma profit_monotone inp inp' σ :
  times inp' = times inp ->
  (forall t, t ∈ times inp -> 0 <= p_t σ t /\ 0 <= v_t σ t) ->
  (forall t, t ∈ times inp ->
     price_at inp t - cost_at inp t <= price_at inp' t - cost_at inp' t) ->
  START_UP_COSTS inp' <= START_UP_COSTS inp ->
  profit inp σ <= profit inp' σ.
Proof.
  intros HT Hpos Hm Hc. unfold profit. rewrite HT.
  revert Hpos Hm. generalize (times inp). clear HT.
  induction l as [|t l IH]; intros Hpos Hm; cbn [fold_right]; [lra|].
  destruct (Hpos t) as [Hp Hv]; [apply list_elem_of_here|].
  pose proof (Hm t (list_elem_of_here _ _)) as Hmt.
  assert ((price_at inp t - cost_at inp t) * p_t σ t
          <= (price_at inp' t - cost_at inp' t) * p_t σ t)
    by (by apply Qmult_le_compat_r).
  assert (START_UP_COSTS inp' * v_t σ t <= START_UP_COSTS inp * v_t σ t)
    by (by apply Qmult_le_compat_r).
  assert (fold_right
            (fun t acc => (price_at inp t - cost_at inp t) * p_t σ t
                          - START_UP_COSTS inp * v_t σ t + acc) 0 l
          <= fold_right
               (fun t acc => (price_at inp' t - cost_at inp' t) * p_t σ t
                             - START_UP_COSTS inp' * v_t σ t + acc) 0 l).
  { apply IH; intros x Hx; [apply Hpos | apply Hm];
      by apply list_elem_of_further. }
  lra.
Qed.

(** X16.  Better market conditions never lower the optimal profit: for two
    valid inputs with the same horizon and output limits, where every period
    of the second has a margin (price minus cost) at least as high and the
    start-up cost is at most as high, an optimal objective value of the first
    model is at most an optimal objective value of the second. *)
Theorem better_market_never_lowers_optimum inp inp' h s h' s' a a' :
  valid_input inp -> valid_input inp' ->
  buildModel inp = (Returned h, s) -> buildModel inp' = (Returned h', s') ->
  times inp' = times inp ->
  PROD_MIN inp' = PROD_MIN inp -> PROD_MAX inp' = PROD_MAX inp ->
  (forall t, t ∈ times inp ->
     price_at inp t - cost_at inp t <= price_at inp' t - cost_at inp' t) ->
  START_UP_COSTS inp' <= START_UP_COSTS inp ->
  optimal s a -> optimal s' a' ->
  objective_at s a <= objective_at s' a'.
Proof.
  intros Hv Hv' Hb Hb' HT Hmin Hmax Hm Hc [Hf _] [_ Hopt'].
  assert (Hh : h' = h).
  { destruct (built_model inp h s Hv Hb) as [-> _].
    destruct (built_model inp' h' s' Hv' Hb') as [-> _]. by rewrite HT. }
  subst h'.
  apply (feasible_iff_unit_commitment inp h s a Hv Hb) in Hf.
  assert (Hf' : feasible s' a).
  { apply (feasible_iff_unit_commitment inp' h s' a Hv' Hb').
    unfold unit_commitment in *. rewrite HT, Hmin, Hmax. exact Hf. }
  eapply Qle_trans; [|apply (Hopt' a Hf')].
  rewrite (objective_is_profit inp h s a Hv Hb).
  rewrite (objective_is_profit inp' h s' a Hv' Hb').
  apply profit_monotone; [done| |done|done].
  intros t Ht. destruct (Hf t Ht) as (_ & Hvb & _ & Hp & _).
  apply binary_bounds in Hvb. tauto.
Qed.

Lemma better_built :
  buildModel better_example
  = (Returned example_handles, built_solver better_example 3 CreateSolver).
Proof.
  apply (buildModel_valid better_example better_valid).
  apply representableb_sound. vm_compute. reflexivity.
Qed.

Lemma better_solution_optimal :
  optimal (built_solver better_example 3 CreateSolver) better_solution.
Proof.
  split.
  - apply feasibleb_sound. vm_compute. reflexivity.
  - intros a Ha.
    assert (objective_at (built_solver better_example 3 CreateSolver)
              better_solution == 17995) as -> by (vm_compute; reflexivity).
    rewrite (objective_is_profit better_example _ _ a better_valid better_built).
    apply (feasible_iff_unit_commitment better_example _ _ a better_valid
             better_built) in Ha.
    set (σ := schedule a example_handles) in *.
    assert (Hp : profit better_example σ
                 == 90 * p_t σ 1 - 5 * v_t σ 1 + 10 * p_t σ 2 - 5 * v_t σ 2
                    + 80 * p_t σ 3 - 5 * v_t σ 3).
    { unfold profit. cbn [times better_example example fold_right].
      change (price_at better_example 1) with 210.
      change (price_at better_example 2) with 130.
      change (price_at better_example 3) with 200.
      change (cost_at better_example 1) with 120.
      change (cost_at better_example 2) with 120.
      change (cost_at better_example 3) with 120.
      change (START_UP_COSTS better_example) with 5. lra. }
    rewrite Hp.
    destruct (example_constraints σ Ha)
      as (([U1|U1] & [U2|U2] & [U3|U3]) & (V1 & V2 & V3) & (_ & W2 & W3)
          & (? & ?) & (? & ?) & (? & ?) & E1 & E2 & E3);
      rewrite U1, U2, U3 in *;
      apply binary_bounds in V1, V2, V3, W2, W3; lra.
Qed.

Lemma better_market_never_lowers_optimum_witness :
  objective_at example_solver (values printed_solution)
  <= objective_at (built_solver better_example 3 CreateSolver) better_solution.
Proof.
  apply (better_market_never_lowers_optimum example better_example
           example_handles example_solver example_handles
           (built_solver better_example 3 CreateSolver)
           (values printed_solution) better_solution).
  - exact example_valid.
  - exact better_valid.
  - exact example_built.
  - exact better_built.
  - reflexivity.
  - reflexivity.
  - reflexivity.
  - intros t Ht. cbn in Ht. rewrite !elem_of_cons, elem_of_nil in Ht.
    destruct Ht as [-> | [-> | [-> | []]]]; vm_compute; discriminate.
  - vm_compute. discriminate.
  - apply printed_solution_optimal.
  - exact better_solution_optimal.
Defined.
